(** * Task manager: the task list, its view state and its durable mirror

    Shallow embedding of [app/(tabs)/index.tsx].  The file holds two
    [TaskManager] components: one that mirrors the list to [AsyncStorage]
    and validates its form with a Zod schema (module [Persisted]), and one
    that keeps everything in [useState] cells (module [InMemory]).

    JavaScript strings are sequences of UTF-16 code units; a code unit is
    an [N].  React state is an explicit record, every handler is a
    transition on it, and what a handler asks of its environment (the
    clock, the random source, whether the storage call settles or rejects)
    is an explicit argument of the transition. *)

From Stdlib Require Import NArith String Ascii List Lia.
From Stdlib Require Import DecimalString DecimalPos DecimalN.
From stdpp Require Import base list gmap.
Import ListNotations.
Local Open Scope N_scope.
Set Warnings "-register-all".
Set Default Proof Using "Type".

(** ** JavaScript strings *)

Abbreviation jsstring := (list N).

Fixpoint lit (s : string) : jsstring :=
  match s with
  | EmptyString => []
  | String a r => N_of_ascii a :: lit r
  end.

(** [a === b] on two strings. *)
Definition strict_eq (a b : jsstring) : bool := bool_decide (a = b).

(** WhiteSpace and LineTerminator code units, as [String.prototype.trim]
    strips them. *)
Definition is_white_space (c : N) : bool :=
  (c =? 0x09) || (c =? 0x0A) || (c =? 0x0B) || (c =? 0x0C) || (c =? 0x0D)
  || (c =? 0x20) || (c =? 0xA0) || (c =? 0x1680)
  || ((0x2000 <=? c) && (c <=? 0x200A))
  || (c =? 0x2028) || (c =? 0x2029) || (c =? 0x202F) || (c =? 0x205F)
  || (c =? 0x3000) || (c =? 0xFEFF).

Fixpoint trimStart (s : jsstring) : jsstring :=
  match s with
  | [] => []
  | c :: r => if is_white_space c then trimStart r else s
  end.

Definition trimEnd (s : jsstring) : jsstring := rev (trimStart (rev s)).

Definition trim (s : jsstring) : jsstring := trimEnd (trimStart s).

(** [x || ""] on an optional string: [undefined] and the empty string are
    both falsy. *)
Definition or_empty (x : option jsstring) : jsstring :=
  match x with
  | Some (c :: r) => c :: r
  | Some [] => []
  | None => []
  end.

(** [n.toString()] for a non-negative integer below 1e21: its decimal
    digits. *)
Definition Number_toString (n : N) : jsstring :=
  lit (NilZero.string_of_uint (N.to_uint n)).

(** ** Tasks *)

Record Task := mkTask {
  id : jsstring;
  title : jsstring;
  description : option jsstring;
  completed : bool
}.

(** [{ ...t, completed: !t.completed }] *)
Definition with_completed_flipped (t : Task) : Task :=
  {| id := id t; title := title t; description := description t;
     completed := negb (completed t) |}.

(** [{ ...t, title: ti, description: de }] *)
Definition with_text (t : Task) (ti : jsstring) (de : jsstring) : Task :=
  {| id := id t; title := ti; description := Some de;
     completed := completed t |}.

(** The predicate of [tasks.filter(...)] behind [filteredTasks]; the filter
    is whatever string the state holds. *)
Definition passes (flt : jsstring) (task : Task) : bool :=
  if strict_eq flt (lit "complete") then completed task
  else if strict_eq flt (lit "incomplete") then negb (completed task)
  else true.

(** ** The component that keeps its list in memory only *)

Module InMemory.

Record State := mkState {
  tasks : list Task;
  newTitle : jsstring;
  newDescription : jsstring;
  editTask : option Task;
  filter : jsstring;
  selectedTask : option Task
}.

Definition initial : State :=
  {| tasks := []; newTitle := []; newDescription := []; editTask := None;
     filter := lit "all"; selectedTask := None |}.

Definition setTasks (l : list Task) (s : State) : State :=
  {| tasks := l; newTitle := newTitle s; newDescription := newDescription s;
     editTask := editTask s; filter := filter s;
     selectedTask := selectedTask s |}.

Definition setNewTitle (v : jsstring) (s : State) : State :=
  {| tasks := tasks s; newTitle := v; newDescription := newDescription s;
     editTask := editTask s; filter := filter s;
     selectedTask := selectedTask s |}.

Definition setNewDescription (v : jsstring) (s : State) : State :=
  {| tasks := tasks s; newTitle := newTitle s; newDescription := v;
     editTask := editTask s; filter := filter s;
     selectedTask := selectedTask s |}.

Definition setEditTask (e : option Task) (s : State) : State :=
  {| tasks := tasks s; newTitle := newTitle s;
     newDescription := newDescription s;
     editTask := e; filter := filter s; selectedTask := selectedTask s |}.

Definition setFilter (v : jsstring) (s : State) : State :=
  {| tasks := tasks s; newTitle := newTitle s;
     newDescription := newDescription s;
     editTask := editTask s; filter := v; selectedTask := selectedTask s |}.

Definition setSelectedTask (e : option Task) (s : State) : State :=
  {| tasks := tasks s; newTitle := newTitle s;
     newDescription := newDescription s;
     editTask := editTask s; filter := filter s; selectedTask := e |}.

(** [random] is the string [Math.random().toString()] evaluates to. *)
Definition addTask (random : jsstring) (s : State) : State :=
  if strict_eq (trim (newTitle s)) [] then s
  else
    let newTask :=
      {| id := random; title := newTitle s;
         description := Some (or_empty (Some (newDescription s)));
         completed := false |} in
    setNewDescription [] (setNewTitle [] (setTasks (tasks s ++ [newTask]) s)).

(** The replacement spreads the argument [task], not the list element. *)
Definition editExistingTask (task : Task) (s : State) : State :=
  setNewDescription [] (setNewTitle [] (setEditTask None
    (setTasks
       (List.map (fun t =>
          if strict_eq (id t) (id task)
          then with_text task (newTitle s) (newDescription s)
          else t) (tasks s))
       s))).

Definition deleteTask (taskId : jsstring) (s : State) : State :=
  setTasks (List.filter (fun task => negb (strict_eq (id task) taskId))
              (tasks s)) s.

Definition toggleCompleteTask (taskId : jsstring) (s : State) : State :=
  setTasks (List.map (fun task =>
              if strict_eq (id task) taskId
              then with_completed_flipped task else task) (tasks s)) s.

Definition filteredTasks (s : State) : list Task :=
  List.filter (passes (filter s)) (tasks s).

Definition openOptions (task : Task) (s : State) : State :=
  setSelectedTask (Some task) s.

Definition handleOptionsAction (action : jsstring) (s : State) : State :=
  let s' :=
    match selectedTask s with
    | Some sel =>
        if strict_eq action (lit "complete") then toggleCompleteTask (id sel) s
        else if strict_eq action (lit "incomplete")
        then toggleCompleteTask (id sel) s
        else if strict_eq action (lit "edit")
        then setNewDescription (or_empty (description sel))
               (setNewTitle (title sel) (setEditTask (Some sel) s))
        else if strict_eq action (lit "delete") then deleteTask (id sel) s
        else s
    | None => s
    end in
  setSelectedTask None s'.

(** The button under the form: [editTask ? () => editExistingTask(editTask)
    : addTask]. *)
Definition pressSubmit (random : jsstring) (s : State) : State :=
  match editTask s with
  | Some e => editExistingTask e s
  | None => addTask random s
  end.

(** The first button of the options menu. *)
Definition pressToggle (s : State) : State :=
  match selectedTask s with
  | Some sel =>
      handleOptionsAction
        (if completed sel then lit "incomplete" else lit "complete") s
  | None => s
  end.

End InMemory.

(** ** JSON text

    [JSON.stringify] at the type [Task[]], after SerializeJSONArray,
    SerializeJSONObject and QuoteJSONString of ECMA-262, and [JSON.parse]
    as a recursive-descent reader of the JSON grammar.  A number is kept as
    its lexeme: no task field is a number. *)

Module JSON.

Inductive value :=
| Null
| Bool (b : bool)
| Number (lexeme : jsstring)
| Str (s : jsstring)
| Array (elements : list value)
| Object (members : list (jsstring * value)).

(** *** Writing *)

Definition hex_digit (d : N) : N := if d <? 10 then 48 + d else 87 + d.

(** [\uXXXX], lower-case digits. *)
Definition UnicodeEscape (c : N) : jsstring :=
  [92; 117; hex_digit ((c / 4096) mod 16); hex_digit ((c / 256) mod 16);
   hex_digit ((c / 16) mod 16); hex_digit (c mod 16)].

Definition is_leading_surrogate (c : N) : bool :=
  (0xD800 <=? c) && (c <=? 0xDBFF).

Definition is_trailing_surrogate (c : N) : bool :=
  (0xDC00 <=? c) && (c <=? 0xDFFF).

(** The body of QuoteJSONString: a surrogate pair is one code point and is
    copied; a lone surrogate is escaped. *)
Fixpoint quote_chars (s : jsstring) : jsstring :=
  match s with
  | [] => []
  | c :: r =>
      if c =? 8 then 92 :: 98 :: quote_chars r
      else if c =? 9 then 92 :: 116 :: quote_chars r
      else if c =? 10 then 92 :: 110 :: quote_chars r
      else if c =? 12 then 92 :: 102 :: quote_chars r
      else if c =? 13 then 92 :: 114 :: quote_chars r
      else if c =? 34 then 92 :: 34 :: quote_chars r
      else if c =? 92 then 92 :: 92 :: quote_chars r
      else if c <? 32 then UnicodeEscape c ++ quote_chars r
      else if is_leading_surrogate c then
        match r with
        | d :: r' =>
            if is_trailing_surrogate d then c :: d :: quote_chars r'
            else UnicodeEscape c ++ quote_chars r
        | [] => UnicodeEscape c
        end
      else if is_trailing_surrogate c then UnicodeEscape c ++ quote_chars r
      else c :: quote_chars r
  end.

Definition QuoteJSONString (s : jsstring) : jsstring :=
  34 :: quote_chars s ++ [34].

(** Items separated by commas. *)
Fixpoint join_comma (items : list jsstring) : jsstring :=
  match items with
  | [] => []
  | [x] => x
  | x :: rest => x ++ 44 :: join_comma rest
  end.

Definition serialize_bool (b : bool) : jsstring :=
  if b then lit "true" else lit "false".

(** The own properties of a task in creation order, each with its
    serialised value; a property whose value is [undefined] is skipped. *)
Definition task_properties (t : Task) : list (jsstring * jsstring) :=
  [(lit "id", QuoteJSONString (id t));
   (lit "title", QuoteJSONString (title t))]
  ++ match description t with
     | Some d => [(lit "description", QuoteJSONString d)]
     | None => []
     end
  ++ [(lit "completed", serialize_bool (completed t))].

Definition serialize_member (kv : jsstring * jsstring) : jsstring :=
  QuoteJSONString (fst kv) ++ 58 :: snd kv.

Definition SerializeJSONObject (props : list (jsstring * jsstring)) : jsstring :=
  123 :: join_comma (List.map serialize_member props) ++ [125].

Definition SerializeJSONArray (items : list jsstring) : jsstring :=
  91 :: join_comma items ++ [93].

Definition stringify_task (t : Task) : jsstring :=
  SerializeJSONObject (task_properties t).

(** [JSON.stringify(tasks)] *)
Definition stringify (l : list Task) : jsstring :=
  SerializeJSONArray (List.map stringify_task l).

(** *** Reading *)

Definition is_ws (c : N) : bool :=
  (c =? 9) || (c =? 10) || (c =? 13) || (c =? 32).

Fixpoint skip_ws (s : jsstring) : jsstring :=
  match s with
  | [] => []
  | c :: r => if is_ws c then skip_ws r else s
  end.

Definition hex_value (c : N) : option N :=
  if (48 <=? c) && (c <=? 57) then Some (c - 48)
  else if (65 <=? c) && (c <=? 70) then Some (c - 55)
  else if (97 <=? c) && (c <=? 102) then Some (c - 87)
  else None.

Definition hex4 (a b c d : N) : option N :=
  match hex_value a, hex_value b, hex_value c, hex_value d with
  | Some x, Some y, Some z, Some w => Some (((x * 16 + y) * 16 + z) * 16 + w)
  | _, _, _, _ => None
  end.

(** The code unit a one-letter escape stands for. *)
Definition unescape (e : N) : option N :=
  if e =? 34 then Some 34
  else if e =? 92 then Some 92
  else if e =? 47 then Some 47
  else if e =? 98 then Some 8
  else if e =? 102 then Some 12
  else if e =? 110 then Some 10
  else if e =? 114 then Some 13
  else if e =? 116 then Some 9
  else None.

Definition cons_chars (c : N) (r : option (jsstring * jsstring))
  : option (jsstring * jsstring) :=
  match r with
  | Some (cs, rest) => Some (c :: cs, rest)
  | None => None
  end.

(** The characters of a string after its opening quote, up to and
    including the closing quote. *)
Fixpoint parse_chars (s : jsstring) : option (jsstring * jsstring) :=
  match s with
  | [] => None
  | c :: r =>
      if c =? 34 then Some ([], r)
      else if c =? 92 then
        match r with
        | [] => None
        | e :: r1 =>
            if e =? 117 then
              match r1 with
              | h1 :: h2 :: h3 :: h4 :: r2 =>
                  match hex4 h1 h2 h3 h4 with
                  | Some u => cons_chars u (parse_chars r2)
                  | None => None
                  end
              | _ => None
              end
            else
              match unescape e with
              | Some u => cons_chars u (parse_chars r1)
              | None => None
              end
        end
      else if c <? 32 then None
      else cons_chars c (parse_chars r)
  end.

Definition is_digit (c : N) : bool := (48 <=? c) && (c <=? 57).

Fixpoint digits (s : jsstring) : jsstring * jsstring :=
  match s with
  | [] => ([], [])
  | c :: r =>
      if is_digit c then let '(ds, rest) := digits r in (c :: ds, rest)
      else ([], s)
  end.

(** [Some r] when [s] is [c] followed by [r]. *)
Definition next_is (c : N) (s : jsstring) : option jsstring :=
  match s with
  | x :: r => if x =? c then Some r else None
  | [] => None
  end.

(** [frac?]: a dot and at least one digit, or nothing. *)
Definition parse_fraction (s : jsstring) : option (jsstring * jsstring) :=
  match next_is 46 s with
  | Some r =>
      match digits r with
      | ([], _) => None
      | (d :: ds, rest) => Some (46 :: d :: ds, rest)
      end
  | None => Some ([], s)
  end.

(** [exp?]: [e] or [E], an optional sign and at least one digit, or
    nothing. *)
Definition parse_exponent (s : jsstring) : option (jsstring * jsstring) :=
  match s with
  | [] => Some ([], s)
  | e :: r =>
      if (e =? 69) || (e =? 101) then
        let '(sg, r1) :=
          match r with
          | x :: r' => if (x =? 43) || (x =? 45) then ([x], r') else ([], r)
          | [] => ([], r)
          end in
        match digits r1 with
        | ([], _) => None
        | (d :: ds, rest) => Some (e :: sg ++ d :: ds, rest)
        end
      else Some ([], s)
  end.

(** [-? int frac? exp?]; returns the lexeme and what follows it. *)
Definition parse_number (s : jsstring) : option (jsstring * jsstring) :=
  let '(sign, s1) :=
    match next_is 45 s with
    | Some r => ([45], r)
    | None => ([], s)
    end in
  match s1 with
  | [] => None
  | c :: r =>
      if is_digit c then
        let '(ip, s2) :=
          if c =? 48 then ([48], r)
          else let '(ds, rest) := digits r in (c :: ds, rest) in
        match parse_fraction s2 with
        | Some (fp, s3) =>
            match parse_exponent s3 with
            | Some (ep, s4) => Some (sign ++ ip ++ fp ++ ep, s4)
            | None => None
            end
        | None => None
        end
      else None
  end.

Fixpoint strip_prefix (p s : jsstring) : option jsstring :=
  match p, s with
  | [], _ => Some s
  | a :: p', b :: s' => if a =? b then strip_prefix p' s' else None
  | _ :: _, [] => None
  end.

(** CreateDataProperty on the object under construction: a repeated key
    keeps its place and takes the later value. *)
Fixpoint set_member (k : jsstring) (v : value) (o : list (jsstring * value))
  : list (jsstring * value) :=
  match o with
  | [] => [(k, v)]
  | (k', v') :: rest =>
      if strict_eq k' k then (k', v) :: rest else (k', v') :: set_member k v rest
  end.

Definition build_object (ms : list (jsstring * value)) : value :=
  Object (fold_left (fun o kv => set_member (fst kv) (snd kv) o) ms []).

Definition with_value {A B} (f : A -> B) (r : option (A * jsstring))
  : option (B * jsstring) :=
  match r with
  | Some (a, rest) => Some (f a, rest)
  | None => None
  end.

(** The rest of a literal name, and its value. *)
Definition keyword (p : jsstring) (v : value) (r : jsstring)
  : option (value * jsstring) :=
  match strip_prefix p r with
  | Some rest => Some (v, rest)
  | None => None
  end.

(** [fuel] bounds the number of nested and chained calls; every call but
    the first follows at least one consumed character. *)
Fixpoint parse_value (fuel : nat) (s : jsstring) : option (value * jsstring) :=
  match fuel with
  | O => None
  | S fuel' =>
      match skip_ws s with
      | [] => None
      | c :: r =>
          if c =? 34 then with_value Str (parse_chars r)
          else if c =? 91 then
            match next_is 93 (skip_ws r) with
            | Some rest => Some (Array [], rest)
            | None => with_value Array (parse_elements fuel' r)
            end
          else if c =? 123 then
            match next_is 125 (skip_ws r) with
            | Some rest => Some (Object [], rest)
            | None => with_value build_object (parse_members fuel' r)
            end
          else if c =? 116 then
            keyword (lit "rue") (Bool true) r
          else if c =? 102 then
            keyword (lit "alse") (Bool false) r
          else if c =? 110 then
            keyword (lit "ull") Null r
          else with_value Number (parse_number (c :: r))
      end
  end
with parse_elements (fuel : nat) (s : jsstring)
  : option (list value * jsstring) :=
  match fuel with
  | O => None
  | S fuel' =>
      match parse_value fuel' s with
      | Some (v, r) =>
          match skip_ws r with
          | [] => None
          | c :: r1 =>
              if c =? 44 then with_value (cons v) (parse_elements fuel' r1)
              else if c =? 93 then Some ([v], r1)
              else None
          end
      | None => None
      end
  end
with parse_members (fuel : nat) (s : jsstring)
  : option (list (jsstring * value) * jsstring) :=
  match fuel with
  | O => None
  | S fuel' =>
      match next_is 34 (skip_ws s) with
      | Some r =>
          match parse_chars r with
          | Some (k, r1) =>
              match next_is 58 (skip_ws r1) with
              | Some r2 =>
                  match parse_value fuel' r2 with
                  | Some (v, r3) =>
                      match skip_ws r3 with
                      | [] => None
                      | c :: r4 =>
                          if c =? 44
                          then with_value (cons (k, v)) (parse_members fuel' r4)
                          else if c =? 125 then Some ([(k, v)], r4)
                          else None
                      end
                  | None => None
                  end
              | None => None
              end
          | None => None
          end
      | None => None
      end
  end.

(** [JSON.parse(text)]: [None] stands for the SyntaxError it throws.  The
    fuel is enough for every text (see [parse_value_fuel]). *)
Definition parse (text : jsstring) : option value :=
  match parse_value (S (2 * length text)) text with
  | Some (v, rest) =>
      match skip_ws rest with
      | [] => Some v
      | _ :: _ => None
      end
  | None => None
  end.

(** *** Task lists as JavaScript values *)

Definition of_task (t : Task) : value :=
  Object ([(lit "id", Str (id t)); (lit "title", Str (title t))]
          ++ match description t with
             | Some d => [(lit "description", Str d)]
             | None => []
             end
          ++ [(lit "completed", Bool (completed t))]).

Definition of_tasks (l : list Task) : value := Array (List.map of_task l).

Fixpoint get (k : jsstring) (o : list (jsstring * value)) : option value :=
  match o with
  | [] => None
  | (k', v) :: rest => if strict_eq k' k then Some v else get k rest
  end.

(** Reading a value at the type [Task]; [None] when it is no task. *)
Definition to_task (v : value) : option Task :=
  match v with
  | Object o =>
      match get (lit "id") o, get (lit "title") o, get (lit "completed") o with
      | Some (Str i), Some (Str t), Some (Bool c) =>
          match get (lit "description") o with
          | None => Some (mkTask i t None c)
          | Some (Str d) => Some (mkTask i t (Some d) c)
          | Some _ => None
          end
      | _, _, _ => None
      end
  | _ => None
  end.

Fixpoint to_task_list (vs : list value) : option (list Task) :=
  match vs with
  | [] => Some []
  | v :: rest =>
      match to_task v, to_task_list rest with
      | Some t, Some ts => Some (t :: ts)
      | _, _ => None
      end
  end.

Definition to_tasks (v : value) : option (list Task) :=
  match v with
  | Array vs => to_task_list vs
  | _ => None
  end.

End JSON.

(** ** The component that mirrors its list to AsyncStorage *)

Module TaskFormData.

(** [z.infer<typeof taskSchema>] *)
Record t := mk {
  title : jsstring;
  description : option jsstring
}.

Definition empty : t := {| title := []; description := Some [] |}.

End TaskFormData.

Module Persisted.

(** The [useState] cells of the component and the state of its
    react-hook-form ([reset(v)] makes [v] the default values too). *)
Record State := mkState {
  tasks : list Task;
  editTask : option Task;
  filter : jsstring;
  selectedTask : option Task;
  values : TaskFormData.t;
  defaultValues : TaskFormData.t;
  errors_title : option jsstring
}.

(** The component, the device's key-value store and the error console. *)
Record World := mkWorld {
  ui : State;
  storage : gmap jsstring jsstring;
  console : list (jsstring * jsstring)
}.

Definition initial : State :=
  {| tasks := []; editTask := None; filter := lit "all"; selectedTask := None;
     values := TaskFormData.empty; defaultValues := TaskFormData.empty;
     errors_title := None |}.

(** How a storage call ends: the promise is fulfilled, or it is rejected
    with an error. *)
Inductive io := Settles | Rejects (error : jsstring).

(** A statement either completes with a value or throws. *)
Inductive completion (A : Type) :=
| Normal (a : A)
| Throw (error : jsstring).
Arguments Normal {A} a.
Arguments Throw {A} error.

Definition M (A : Type) : Type := World -> completion A * World.

Definition ret {A} (a : A) : M A := fun w => (Normal a, w).

Definition bind {A B} (c : M A) (k : A -> M B) : M B :=
  fun w =>
    match c w with
    | (Normal a, w') => k a w'
    | (Throw e, w') => (Throw e, w')
    end.

(** [try { body } catch (error) { handler }] *)
Definition try_catch {A} (body : M A) (handler : jsstring -> M A) : M A :=
  fun w =>
    match body w with
    | (Normal a, w') => (Normal a, w')
    | (Throw e, w') => handler e w'
    end.

Declare Scope js_scope.
Delimit Scope js_scope with js.
Notation "x <- c ;; k" := (bind c (fun x => k))
  (at level 100, c at next level, right associativity) : js_scope.
Notation "c ;; k" := (bind c (fun _ => k))
  (at level 100, right associativity) : js_scope.
Local Open Scope js_scope.

Definition read {A} (f : State -> A) : M A := fun w => (Normal (f (ui w)), w).

Definition update (f : State -> State) : M unit :=
  fun w =>
    (Normal tt, {| ui := f (ui w); storage := storage w; console := console w |}).

Definition with_tasks (l : list Task) (s : State) : State :=
  {| tasks := l; editTask := editTask s; filter := filter s;
     selectedTask := selectedTask s; values := values s;
     defaultValues := defaultValues s; errors_title := errors_title s |}.

Definition setTasks (l : list Task) : M unit := update (with_tasks l).

Definition setEditTask (e : option Task) : M unit :=
  update (fun s =>
    {| tasks := tasks s; editTask := e; filter := filter s;
       selectedTask := selectedTask s; values := values s;
       defaultValues := defaultValues s; errors_title := errors_title s |}).

Definition setFilter (v : jsstring) : M unit :=
  update (fun s =>
    {| tasks := tasks s; editTask := editTask s; filter := v;
       selectedTask := selectedTask s; values := values s;
       defaultValues := defaultValues s; errors_title := errors_title s |}).

Definition setSelectedTask (e : option Task) : M unit :=
  update (fun s =>
    {| tasks := tasks s; editTask := editTask s; filter := filter s;
       selectedTask := e; values := values s;
       defaultValues := defaultValues s; errors_title := errors_title s |}).

(** [onChangeText] of the two inputs. *)
Definition setValues (v : TaskFormData.t) : M unit :=
  update (fun s =>
    {| tasks := tasks s; editTask := editTask s; filter := filter s;
       selectedTask := selectedTask s; values := v;
       defaultValues := defaultValues s; errors_title := errors_title s |}).

Definition setErrors (e : option jsstring) : M unit :=
  update (fun s =>
    {| tasks := tasks s; editTask := editTask s; filter := filter s;
       selectedTask := selectedTask s; values := values s;
       defaultValues := defaultValues s; errors_title := e |}).

(** [reset(v)] and, with [None], [reset()]. *)
Definition reset (v : option TaskFormData.t) : M unit :=
  update (fun s =>
    let d := match v with Some x => x | None => defaultValues s end in
    {| tasks := tasks s; editTask := editTask s; filter := filter s;
       selectedTask := selectedTask s; values := d;
       defaultValues := d; errors_title := None |}).

Definition console_error (message error : jsstring) : M unit :=
  fun w =>
    (Normal tt,
     {| ui := ui w; storage := storage w;
        console := console w ++ [(message, error)] |}).

Definition AsyncStorage_getItem (o : io) (key : jsstring)
  : M (option jsstring) :=
  fun w =>
    match o with
    | Settles => (Normal (storage w !! key), w)
    | Rejects e => (Throw e, w)
    end.

Definition AsyncStorage_setItem (o : io) (key v : jsstring) : M unit :=
  fun w =>
    match o with
    | Settles =>
        (Normal tt,
         {| ui := ui w; storage := <[key := v]> (storage w);
            console := console w |})
    | Rejects e => (Throw e, w)
    end.

Definition JSON_parse (text : jsstring) : M JSON.value :=
  fun w =>
    match JSON.parse text with
    | Some v => (Normal v, w)
    | None => (Throw (lit "SyntaxError"), w)
    end.

(** [storedTasks ? JSON.parse(storedTasks) : []]: [null] and the empty
    string are falsy. *)
Definition getAllTasks (o : io) : M JSON.value :=
  try_catch
    (storedTasks <- AsyncStorage_getItem o (lit "tasks");;
     match storedTasks with
     | Some (c :: r) => JSON_parse (c :: r)
     | Some [] => ret (JSON.Array [])
     | None => ret (JSON.Array [])
     end)
    (fun error =>
       console_error (lit "Erro ao carregar tarefas:") error;;
       ret (JSON.Array [])).

Definition saveAllTasks (o : io) (updatedTasks : list Task) : M unit :=
  try_catch
    (AsyncStorage_setItem o (lit "tasks") (JSON.stringify updatedTasks);;
     setTasks updatedTasks)
    (fun error => console_error (lit "Erro ao salvar tarefas:") error).

(** [now] is the reading of [Date.now()]. *)
Definition addTask (now : N) (o : io) (task : TaskFormData.t) : M unit :=
  ts <- read tasks;;
  let newTask :=
    {| id := Number_toString now; title := TaskFormData.title task;
       description := Some (or_empty (TaskFormData.description task));
       completed := false |} in
  let updatedTasks := ts ++ [newTask] in
  saveAllTasks o updatedTasks;;
  reset (Some TaskFormData.empty).

Definition editExistingTask (o : io) (taskData : TaskFormData.t) : M unit :=
  e <- read editTask;;
  match e with
  | Some edited =>
      ts <- read tasks;;
      let updatedTasks :=
        List.map (fun task =>
          if strict_eq (id task) (id edited)
          then with_text task (TaskFormData.title taskData)
                 (or_empty (TaskFormData.description taskData))
          else task) ts in
      saveAllTasks o updatedTasks;;
      setEditTask None;;
      reset (Some TaskFormData.empty)
  | None => ret tt
  end.

Definition deleteTask (o : io) (task : Task) : M unit :=
  ts <- read tasks;;
  let updatedTasks :=
    List.filter (fun t => negb (strict_eq (id t) (id task))) ts in
  saveAllTasks o updatedTasks.

Definition toggleCompleteTask (o : io) (task : Task) : M unit :=
  ts <- read tasks;;
  let updatedTasks :=
    List.map (fun t =>
      if strict_eq (id t) (id task) then with_completed_flipped t else t) ts in
  saveAllTasks o updatedTasks.

Definition openOptions (task : Task) : M unit :=
  setSelectedTask (Some task);;
  setEditTask None;;
  reset None.

(** The two asynchronous handlers are started and not awaited; what they
    write ([tasks], the store) is disjoint from what follows them here, so
    the order of the writes does not show. *)
Definition handleOptionsAction (o : io) (action : jsstring) : M unit :=
  sel <- read selectedTask;;
  match sel with
  | Some selected =>
      if strict_eq action (lit "complete") || strict_eq action (lit "incomplete")
      then toggleCompleteTask o selected
      else if strict_eq action (lit "edit") then
        setEditTask (Some selected);;
        reset (Some {| TaskFormData.title := title selected;
                       TaskFormData.description :=
                         Some (or_empty (description selected)) |})
      else if strict_eq action (lit "delete") then deleteTask o selected
      else ret tt
  | None => ret tt
  end;;
  setSelectedTask None;;
  reset None.

Definition title_required : jsstring :=
  lit "O t" ++ [0xED] ++ lit "tulo " ++ [0xE9] ++ lit " obrigat" ++ [0xF3]
  ++ lit "rio".

(** [taskSchema]: the message for [title], if the data is refused.
    [z.string().min(1)] counts code units and does not trim. *)
Definition taskSchema (data : TaskFormData.t) : option jsstring :=
  if (N.of_nat (length (TaskFormData.title data)) <? 1) then Some title_required
  else None.

(** [handleSubmit(editTask ? editExistingTask : addTask)], as the button
    under the form runs it. *)
Definition handleSubmit (now : N) (o : io) : M unit :=
  data <- read values;;
  match taskSchema data with
  | Some message => setErrors (Some message)
  | None =>
      setErrors None;;
      e <- read editTask;;
      match e with
      | Some _ => editExistingTask o data
      | None => addTask now o data
      end
  end.

Definition filteredTasks (s : State) : list Task :=
  List.filter (passes (filter s)) (tasks s).

(** The world a handler leaves behind. *)
Definition run {A} (c : M A) (w : World) : World := snd (c w).

End Persisted.

(** ** Vocabulary of the statements *)

(** [reads vt v]: the text [vt] is read as the value [v], with any fuel
    and whatever follows. *)
Definition reads (vt : jsstring) (v : JSON.value) : Prop :=
  forall (f : nat) (rest : jsstring),
    JSON.parse_value (S f) (vt ++ rest) = Some (v, rest).

(** A serialised property and the member it is read as. *)
Definition read_as (p : jsstring * jsstring) (kv : jsstring * JSON.value)
  : Prop :=
  fst p = fst kv /\ reads (snd p) (snd kv).

(** [after] is [before] with [completed] flipped if its id is [x], and is
    [before] otherwise. *)
Definition toggled_at (x : jsstring) (before after : Task) : Prop :=
  id after = id before
  /\ title after = title before
  /\ description after = description before
  /\ completed after
     = (if strict_eq (id before) x then negb (completed before)
        else completed before).

(** [after] is [before] with the given title and description if its id is
    [x], and is [before] otherwise. *)
Definition edited_at (x ti de : jsstring) (before after : Task) : Prop :=
  id after = id before
  /\ completed after = completed before
  /\ (if strict_eq (id before) x
      then title after = ti /\ description after = Some de
      else after = before).

(** The three views of one list: [all] is the list, and [complete] and
    [incomplete] split it. *)
Definition partitions (l : list Task) (view : string -> list Task) : Prop :=
  view "all"%string = l
  /\ length (view "all"%string)
     = (length (view "complete"%string) + length (view "incomplete"%string))%nat
  /\ Permutation l (view "complete"%string ++ view "incomplete"%string)
  /\ Forall (fun t => completed t = true) (view "complete"%string)
  /\ Forall (fun t => completed t = false) (view "incomplete"%string).

(** How a load may end, by what the store does and holds: the call is
    rejected, nothing is stored, the stored text is no JSON, or it is the
    text of some value. *)
Inductive load_outcome (o : Persisted.io) (w : Persisted.World)
  : JSON.value -> Prop :=
| load_unavailable (e : jsstring) :
    o = Persisted.Rejects e -> load_outcome o w (JSON.Array [])
| load_absent :
    o = Persisted.Settles ->
    Persisted.storage w !! lit "tasks" = None ->
    load_outcome o w (JSON.Array [])
| load_unparseable (text : jsstring) :
    o = Persisted.Settles ->
    Persisted.storage w !! lit "tasks" = Some text ->
    JSON.parse text = None ->
    load_outcome o w (JSON.Array [])
| load_parsed (text : jsstring) (v : JSON.value) :
    o = Persisted.Settles ->
    Persisted.storage w !! lit "tasks" = Some text ->
    JSON.parse text = Some v ->
    load_outcome o w v.

(** What a load may leave on the console, by what the store does and
    holds: the error of a rejected read, the SyntaxError of a stored text
    that is no JSON, and nothing when no text, the empty text or the text
    of a value is stored. *)
Inductive load_report (o : Persisted.io) (w : Persisted.World)
  : list (jsstring * jsstring) -> Prop :=
| report_unavailable (e : jsstring) :
    o = Persisted.Rejects e ->
    load_report o w [(lit "Erro ao carregar tarefas:", e)]
| report_absent :
    o = Persisted.Settles ->
    Persisted.storage w !! lit "tasks" = None ->
    load_report o w []
| report_empty :
    o = Persisted.Settles ->
    Persisted.storage w !! lit "tasks" = Some [] ->
    load_report o w []
| report_unparseable (text : jsstring) :
    o = Persisted.Settles ->
    Persisted.storage w !! lit "tasks" = Some text ->
    text <> [] ->
    JSON.parse text = None ->
    load_report o w [(lit "Erro ao carregar tarefas:", lit "SyntaxError")]
| report_parsed (text : jsstring) (v : JSON.value) :
    o = Persisted.Settles ->
    Persisted.storage w !! lit "tasks" = Some text ->
    JSON.parse text = Some v ->
    load_report o w [].

(** The task [addTask] of the persisted component builds from the clock
    reading and the form data. *)
Definition created (call : N * TaskFormData.t) : Task :=
  {| id := Number_toString (fst call);
     title := TaskFormData.title (snd call);
     description := Some (or_empty (TaskFormData.description (snd call)));
     completed := false |}.

(** A run of [addTask] calls, each with its clock reading and its data,
    every save fulfilled. *)
Fixpoint addTasks (calls : list (N * TaskFormData.t)) (w : Persisted.World)
  : Persisted.World :=
  match calls with
  | [] => w
  | call :: rest =>
      addTasks rest
        (Persisted.run
           (Persisted.addTask (fst call) Persisted.Settles (snd call)) w)
  end.

(** The user fills the form of the persisted component. *)
Definition typed (ti : string) : Persisted.M unit :=
  Persisted.setValues (TaskFormData.mk (lit ti) (Some [])).

(** What the user can do to the persisted component, with what the
    environment answers. *)
Inductive intent :=
| TypeText (v : TaskFormData.t)
| PressSubmit (now : N) (o : Persisted.io)
| CancelEdit
| ChooseFilter (v : jsstring)
| OpenOptions (t : Task)
| ChooseAction (o : Persisted.io) (action : jsstring).

Definition dispatch (i : intent) : Persisted.M unit :=
  match i with
  | TypeText v => Persisted.setValues v
  | PressSubmit now o => Persisted.handleSubmit now o
  | CancelEdit => Persisted.setEditTask None
  | ChooseFilter v => Persisted.setFilter v
  | OpenOptions t => Persisted.openOptions t
  | ChooseAction o action => Persisted.handleOptionsAction o action
  end.

Fixpoint dispatch_all (intents : list intent) (w : Persisted.World)
  : Persisted.World :=
  match intents with
  | [] => w
  | i :: rest => dispatch_all rest (Persisted.run (dispatch i) w)
  end.

(** An edit and an options menu are never open together. *)
Definition edit_or_menu (s : Persisted.State) : Prop :=
  Persisted.editTask s = None \/ Persisted.selectedTask s = None.

(** ** Sample data *)

Definition buy_milk : Task :=
  mkTask (lit "1700000000000") (lit "Buy milk") (Some []) false.

Definition walk_dog : Task :=
  mkTask (lit "1700000000001") (lit "Walk dog") (Some (lit "evening")) true.

Definition quota_exceeded : jsstring := lit "QuotaExceededError".

(** A device on which nothing was ever saved. *)
Definition fresh_world : Persisted.World :=
  Persisted.mkWorld Persisted.initial ∅ [].

(** The persisted component showing [l], with [e] under edit. *)
Definition world_showing (l : list Task) (e : option Task) : Persisted.World :=
  Persisted.mkWorld
    {| Persisted.tasks := l; Persisted.editTask := e;
       Persisted.filter := lit "all"; Persisted.selectedTask := None;
       Persisted.values := TaskFormData.empty;
       Persisted.defaultValues := TaskFormData.empty;
       Persisted.errors_title := None |}
    (<[lit "tasks" := JSON.stringify l]> ∅) [].

(** The in-memory component showing [l], with [e] under edit. *)
Definition state_showing (l : list Task) (e : option Task) : InMemory.State :=
  {| InMemory.tasks := l; InMemory.newTitle := []; InMemory.newDescription := [];
     InMemory.editTask := e; InMemory.filter := lit "all";
     InMemory.selectedTask := None |}.

(** ** Starting the component, and what is on the screen *)

(** A new instance of the component on the same device: fresh cells, the
    store and the console as they are. *)
Definition restart (w : Persisted.World) : Persisted.World :=
  Persisted.mkWorld Persisted.initial (Persisted.storage w)
    (Persisted.console w).

(** The mount effect,
    [getAllTasks().then((storedTasks) => setTasks(storedTasks))].  The
    loaded value is read at the declared type of the cell; [None] when it
    is no [Task[]], a state the typed cells cannot describe. *)
Definition mount (o : Persisted.io) (w : Persisted.World)
  : option Persisted.World :=
  match Persisted.getAllTasks o w with
  | (Persisted.Normal v, w') =>
      match JSON.to_tasks v with
      | Some l => Some (Persisted.run (Persisted.setTasks l) w')
      | None => None
      end
  | (Persisted.Throw _, _) => None
  end.

(** The stored record is the text of the list on the screen; with no
    record, the screen is empty. *)
Definition mirrored (w : Persisted.World) : Prop :=
  match Persisted.storage w !! lit "tasks" with
  | Some text => text = JSON.stringify (Persisted.tasks (Persisted.ui w))
  | None => Persisted.tasks (Persisted.ui w) = []
  end.

(** The values the filter buttons pass to [setFilter]: the array each
    component maps over. *)
Definition persisted_filter_buttons : list jsstring :=
  [lit "all"; lit "complete"; lit "incomplete"].

Definition in_memory_filter_buttons : list jsstring :=
  [lit "Todas"; lit "Completas"; lit "Incompletas"].

(** [t] is the only task of [l] with its id. *)
Definition only_with_its_id (t : Task) (l : list Task) : Prop :=
  Forall (fun u => id u = id t -> u = t) l.

(** The options menu of the in-memory component, from opening it on [t]
    to choosing [action]. *)
Definition in_memory_choose (t : Task) (action : string)
    (s : InMemory.State) : InMemory.State :=
  InMemory.handleOptionsAction (lit action) (InMemory.openOptions t s).

(** * Properties *)

(** ** Strings *)

Lemma strict_eq_true (a b : jsstring) : strict_eq a b = true <-> a = b.
Proof. unfold strict_eq. apply bool_decide_eq_true. Qed.

Lemma strict_eq_false (a b : jsstring) : strict_eq a b = false <-> a <> b.
Proof. unfold strict_eq. apply bool_decide_eq_false. Qed.

(** ** The JSON reader inverts the JSON writer *)

Section JsonRoundTrip.

Import JSON.

Lemma hex_value_hex_digit (d : N) : d < 16 -> hex_value (hex_digit d) = Some d.
Proof.
  intros Hd. unfold hex_digit, hex_value.
  destruct (N.ltb_spec d 10) as [Hlt | Hge].
  - assert (H1 : (48 <=? 48 + d) = true) by (apply N.leb_le; lia).
    assert (H2 : (48 + d <=? 57) = true) by (apply N.leb_le; lia).
    rewrite H1, H2. simpl. f_equal. lia.
  - assert (H1 : (87 + d <=? 57) = false) by (apply N.leb_gt; lia).
    assert (H2 : (87 + d <=? 70) = false) by (apply N.leb_gt; lia).
    assert (H3 : (97 <=? 87 + d) = true) by (apply N.leb_le; lia).
    assert (H4 : (87 + d <=? 102) = true) by (apply N.leb_le; lia).
    rewrite H1, H2, H3, H4, !andb_false_r. simpl. f_equal. lia.
Qed.

Lemma hex4_digits (c : N) :
  c < 65536 ->
  hex4 (hex_digit ((c / 4096) mod 16)) (hex_digit ((c / 256) mod 16))
       (hex_digit ((c / 16) mod 16)) (hex_digit (c mod 16)) = Some c.
Proof.
  intros Hc. unfold hex4.
  rewrite !hex_value_hex_digit by (apply N.mod_lt; lia).
  f_equal.
  replace (c / 256) with (c / 16 / 16) by (rewrite N.Div0.div_div; reflexivity).
  replace (c / 4096) with (c / 16 / 16 / 16)
    by (rewrite !N.Div0.div_div; reflexivity).
  pose proof (N.div_mod c 16 ltac:(lia)) as E1.
  pose proof (N.div_mod (c / 16) 16 ltac:(lia)) as E2.
  pose proof (N.div_mod (c / 16 / 16) 16 ltac:(lia)) as E3.
  assert (Hq : c / 16 / 16 / 16 < 16).
  { rewrite !N.Div0.div_div. apply N.Div0.div_lt_upper_bound. lia. }
  rewrite (N.mod_small (c / 16 / 16 / 16) 16 Hq).
  lia.
Qed.

Lemma parse_chars_u (h1 h2 h3 h4 : N) (tl : jsstring) :
  parse_chars (92 :: 117 :: h1 :: h2 :: h3 :: h4 :: tl)
  = match hex4 h1 h2 h3 h4 with
    | Some u => cons_chars u (parse_chars tl)
    | None => None
    end.
Proof. reflexivity. Qed.

Lemma parse_chars_escape (c : N) (tl : jsstring) :
  c < 65536 ->
  parse_chars (UnicodeEscape c ++ tl) = cons_chars c (parse_chars tl).
Proof.
  intros Hc. unfold UnicodeEscape. cbn [app].
  rewrite parse_chars_u, hex4_digits by assumption. reflexivity.
Qed.

Lemma parse_chars_raw (c : N) (tl : jsstring) :
  c <> 34 -> c <> 92 -> 32 <= c ->
  parse_chars (c :: tl) = cons_chars c (parse_chars tl).
Proof.
  intros H34 H92 H32. cbn [parse_chars].
  destruct (N.eqb_spec c 34); [contradiction |].
  destruct (N.eqb_spec c 92); [contradiction |].
  destruct (N.ltb_spec c 32); [lia | reflexivity].
Qed.

Lemma parse_chars_short (e u : N) (tl : jsstring) :
  e <> 117 -> unescape e = Some u ->
  parse_chars (92 :: e :: tl) = cons_chars u (parse_chars tl).
Proof.
  intros He Hu. cbn [parse_chars]. change (92 =? 34) with false.
  change (92 =? 92) with true. cbv iota.
  destruct (N.eqb_spec e 117); [contradiction |]. rewrite Hu. reflexivity.
Qed.

(** What QuoteJSONString writes between the quotes reads back as the
    string, whatever follows the closing quote. *)
Lemma parse_chars_quote_chars (s rest : jsstring) :
  parse_chars (quote_chars s ++ 34 :: rest) = Some (s, rest).
Proof.
  remember (length s) as n eqn:Hn.
  assert (Hle : (length s <= n)%nat) by lia. clear Hn.
  revert s Hle. induction n as [| n IH]; intros s Hle.
  { destruct s; [reflexivity | simpl in Hle; lia]. }
  destruct s as [| c r]; [reflexivity |].
  simpl in Hle.
  assert (IHr : parse_chars (quote_chars r ++ 34 :: rest) = Some (r, rest))
    by (apply IH; lia).
  cbn [quote_chars].
  destruct (N.eqb_spec c 8) as [-> |];
    [cbn [app]; rewrite (parse_chars_short 98 8), IHr; done |].
  destruct (N.eqb_spec c 9) as [-> |];
    [cbn [app]; rewrite (parse_chars_short 116 9), IHr; done |].
  destruct (N.eqb_spec c 10) as [-> |];
    [cbn [app]; rewrite (parse_chars_short 110 10), IHr; done |].
  destruct (N.eqb_spec c 12) as [-> |];
    [cbn [app]; rewrite (parse_chars_short 102 12), IHr; done |].
  destruct (N.eqb_spec c 13) as [-> |];
    [cbn [app]; rewrite (parse_chars_short 114 13), IHr; done |].
  destruct (N.eqb_spec c 34) as [-> |];
    [cbn [app]; rewrite (parse_chars_short 34 34), IHr; done |].
  destruct (N.eqb_spec c 92) as [-> |];
    [cbn [app]; rewrite (parse_chars_short 92 92), IHr; done |].
  destruct (N.ltb_spec c 32) as [Hlt | Hge].
  { rewrite <- app_assoc, parse_chars_escape, IHr by lia. reflexivity. }
  unfold is_leading_surrogate, is_trailing_surrogate.
  destruct (N.leb_spec 0xD800 c) as [Hlo | Hlo];
    destruct (N.leb_spec c 0xDBFF) as [Hhi | Hhi]; cbn [andb].
  - destruct r as [| d r'].
    + cbn [app]. rewrite (parse_chars_escape c (34 :: rest)) by lia.
      reflexivity.
    + destruct (N.leb_spec 0xDC00 d) as [Hd1 | Hd1];
        destruct (N.leb_spec d 0xDFFF) as [Hd2 | Hd2]; cbn [andb].
      * cbn [app]. rewrite !parse_chars_raw by lia.
        rewrite IH by (simpl in Hle; lia). reflexivity.
      * rewrite <- app_assoc, parse_chars_escape, IHr by lia. reflexivity.
      * rewrite <- app_assoc, parse_chars_escape, IHr by lia. reflexivity.
      * rewrite <- app_assoc, parse_chars_escape, IHr by lia. reflexivity.
  - destruct (N.leb_spec 0xDC00 c) as [Hc1 | Hc1];
      destruct (N.leb_spec c 0xDFFF) as [Hc2 | Hc2]; cbn [andb].
    + rewrite <- app_assoc, parse_chars_escape, IHr by lia. reflexivity.
    + cbn [app]. rewrite parse_chars_raw, IHr by lia. reflexivity.
    + lia.
    + lia.
  - destruct (N.leb_spec 0xDC00 c) as [Hc1 | Hc1]; [lia |]. cbn [andb].
    cbn [app]. rewrite parse_chars_raw, IHr by lia. reflexivity.
  - lia.
Qed.


Lemma parse_value_quote (f : nat) (tl : jsstring) :
  parse_value (S f) (34 :: tl) = with_value Str (parse_chars tl).
Proof. reflexivity. Qed.

Lemma reads_string (s : jsstring) : reads (QuoteJSONString s) (Str s).
Proof.
  intros f rest. unfold QuoteJSONString. cbn [app].
  rewrite <- app_assoc. cbn [app].
  rewrite parse_value_quote, parse_chars_quote_chars. reflexivity.
Qed.

Lemma reads_bool (b : bool) : reads (serialize_bool b) (Bool b).
Proof. intros f rest. destruct b; reflexivity. Qed.

Lemma parse_members_quote (f : nat) (tl : jsstring) :
  parse_members (S f) (34 :: tl)
  = match parse_chars tl with
    | Some (k, r1) =>
        match next_is 58 (skip_ws r1) with
        | Some r2 =>
            match parse_value f r2 with
            | Some (v, r3) =>
                match skip_ws r3 with
                | [] => None
                | c :: r4 =>
                    if c =? 44
                    then with_value (cons (k, v)) (parse_members f r4)
                    else if c =? 125 then Some ([(k, v)], r4)
                    else None
                end
            | None => None
            end
        | None => None
        end
    | None => None
    end.
Proof. reflexivity. Qed.

Lemma serialize_member_app (k vt tl : jsstring) :
  serialize_member (k, vt) ++ tl = 34 :: quote_chars k ++ 34 :: 58 :: vt ++ tl.
Proof.
  unfold serialize_member, QuoteJSONString. cbn [fst snd app].
  rewrite <- !app_assoc. reflexivity.
Qed.

Lemma parse_members_last (k vt : jsstring) (v : value) (f : nat)
    (rest : jsstring) :
  reads vt v ->
  parse_members (S (S f)) (serialize_member (k, vt) ++ 125 :: rest)
  = Some ([(k, v)], rest).
Proof.
  intros Hv. rewrite serialize_member_app, parse_members_quote.
  rewrite parse_chars_quote_chars.
  change (next_is 58 (skip_ws (58 :: vt ++ 125 :: rest)))
    with (Some (vt ++ 125 :: rest)).
  cbv iota beta. rewrite (Hv f (125 :: rest)). reflexivity.
Qed.

Lemma parse_members_more (k vt : jsstring) (v : value) (f : nat)
    (more : jsstring) :
  reads vt v ->
  parse_members (S (S f)) (serialize_member (k, vt) ++ 44 :: more)
  = with_value (cons (k, v)) (parse_members (S f) more).
Proof.
  intros Hv. rewrite serialize_member_app, parse_members_quote.
  rewrite parse_chars_quote_chars.
  change (next_is 58 (skip_ws (58 :: vt ++ 44 :: more)))
    with (Some (vt ++ 44 :: more)).
  cbv iota beta. rewrite (Hv f (44 :: more)). reflexivity.
Qed.

Lemma parse_members_props (props : list (jsstring * jsstring))
    (vals : list (jsstring * value)) :
  Forall2 read_as props vals ->
  props <> [] ->
  forall (f : nat) (rest : jsstring),
    parse_members (length props + S f)
      (join_comma (List.map serialize_member props) ++ 125 :: rest)
    = Some (vals, rest).
Proof.
  induction 1 as [| [k vt] [k' v] props vals [Hk Hv] Hrest IH];
    intros Hne f rest; [congruence |].
  cbn [fst snd] in Hk, Hv. subst k'.
  destruct props as [| p props].
  - inversion Hrest; subst. cbn [List.map join_comma length Nat.add].
    apply parse_members_last, Hv.
  - cbn [List.map join_comma]. cbn [List.map] in IH.
    rewrite <- app_assoc. cbn [app].
    change (length ((k, vt) :: p :: props) + S f)%nat
      with (S (S (length props + S f))).
    rewrite (parse_members_more k vt v) by exact Hv.
    change (S (length props + S f)) with (length (p :: props) + S f)%nat.
    rewrite IH by congruence. reflexivity.
Qed.

Lemma parse_value_object_members (f : nat) (tl : jsstring) :
  parse_value (S f) (123 :: 34 :: tl)
  = with_value build_object (parse_members f (34 :: tl)).
Proof. reflexivity. Qed.

Lemma task_properties_read (t : Task) :
  exists vals,
    Forall2 read_as (task_properties t) vals
    /\ build_object vals = of_task t
    /\ (3 <= length (task_properties t) <= 4)%nat.
Proof.
  unfold task_properties, of_task.
  destruct (description t) as [d |]; cbn [app].
  - exists [(lit "id", Str (id t)); (lit "title", Str (title t));
            (lit "description", Str d); (lit "completed", Bool (completed t))].
    split; [| split; [reflexivity | simpl; lia]].
    repeat constructor; cbn [fst snd];
      auto using reads_string, reads_bool.
  - exists [(lit "id", Str (id t)); (lit "title", Str (title t));
            (lit "completed", Bool (completed t))].
    split; [| split; [reflexivity | simpl; lia]].
    repeat constructor; cbn [fst snd];
      auto using reads_string, reads_bool.
Qed.

(** One task object is read back as the task, with six calls of fuel. *)
Lemma parse_value_task (t : Task) (f : nat) (rest : jsstring) :
  parse_value (6 + f) (stringify_task t ++ rest) = Some (of_task t, rest).
Proof.
  destruct (task_properties_read t) as (vals & Hread & Hobj & Hlen).
  unfold stringify_task, SerializeJSONObject. cbn [app].
  rewrite <- app_assoc. cbn [app].
  assert (Hne : task_properties t <> []).
  { intros E. rewrite E in Hlen. simpl in Hlen. lia. }
  pose proof (parse_members_props _ _ Hread Hne) as Hm.
  assert (Hhead : exists tl,
            join_comma (List.map serialize_member (task_properties t))
            ++ 125 :: rest = 34 :: tl).
  { unfold task_properties. cbn [app List.map join_comma].
    unfold serialize_member at 1, QuoteJSONString at 1. cbn [fst snd app].
    eexists. reflexivity. }
  destruct Hhead as [tl Htl].
  assert (Hfuel : exists g, (6 + f = S (length (task_properties t) + S g))%nat).
  { exists (4 - length (task_properties t) + f)%nat. lia. }
  destruct Hfuel as [g ->].
  specialize (Hm g rest). rewrite Htl in Hm |- *.
  rewrite parse_value_object_members, Hm. cbn [with_value].
  rewrite Hobj. reflexivity.
Qed.

Lemma parse_elements_S (f : nat) (s : jsstring) :
  parse_elements (S f) s
  = match parse_value f s with
    | Some (v, r) =>
        match skip_ws r with
        | [] => None
        | c :: r1 =>
            if c =? 44 then with_value (cons v) (parse_elements f r1)
            else if c =? 93 then Some ([v], r1)
            else None
        end
    | None => None
    end.
Proof. reflexivity. Qed.

Lemma parse_elements_tasks (l : list Task) :
  l <> [] ->
  forall (f : nat) (rest : jsstring),
    parse_elements (length l + 6 + f)
      (join_comma (List.map stringify_task l) ++ 93 :: rest)
    = Some (List.map of_task l, rest).
Proof.
  induction l as [| t l IH]; intros Hne f rest; [congruence |].
  destruct l as [| u l].
  - cbn [List.map join_comma length].
    change (1 + 6 + f)%nat with (S (6 + f)).
    rewrite parse_elements_S, parse_value_task. reflexivity.
  - cbn [List.map join_comma]. cbn [List.map] in IH.
    rewrite <- app_assoc. cbn [app].
    change (length (t :: u :: l) + 6 + f)%nat
      with (S (length (u :: l) + 6 + f)).
    rewrite parse_elements_S.
    replace (length (u :: l) + 6 + f)%nat
      with (6 + (length (u :: l) + f))%nat at 1 by lia.
    rewrite parse_value_task.
    change (skip_ws (44 :: ?x)) with (44 :: x). cbv iota beta.
    rewrite IH by congruence. reflexivity.
Qed.

Lemma length_join_comma (k : nat) (items : list jsstring) :
  Forall (fun x => (k <= length x)%nat) items ->
  (k * length items <= length (join_comma items))%nat.
Proof.
  induction 1 as [| x items Hx Hall IH]; [simpl; lia |].
  destruct items as [| y items].
  - simpl. lia.
  - change (join_comma (x :: y :: items))
      with (x ++ 44 :: join_comma (y :: items)).
    rewrite length_app.
    change (length (44 :: join_comma (y :: items)))
      with (S (length (join_comma (y :: items)))).
    change (length (x :: y :: items)) with (S (length (y :: items))).
    rewrite Nat.mul_succ_r. lia.
Qed.

Lemma length_stringify_task (t : Task) : (7 <= length (stringify_task t))%nat.
Proof.
  unfold stringify_task, SerializeJSONObject, task_properties.
  cbn [app List.map join_comma].
  unfold serialize_member at 1, QuoteJSONString at 1.
  cbn [fst snd app lit quote_chars]. simpl. lia.
Qed.

(** [JSON.parse(JSON.stringify(l))] is the array of the tasks of [l]. *)
Lemma parse_stringify (l : list Task) : parse (stringify l) = Some (of_tasks l).
Proof.
  destruct l as [| t l]; [reflexivity |].
  unfold parse, stringify, SerializeJSONArray, of_tasks.
  set (items := List.map stringify_task (t :: l)).
  assert (Hlen : (7 * length (t :: l) <= length (join_comma items))%nat).
  { subst items. rewrite <- (length_map stringify_task).
    apply length_join_comma. generalize (t :: l) as l'.
    induction l' as [| u l' IH]; constructor;
      [apply length_stringify_task | exact IH]. }
  assert (Hhead : exists tl, join_comma items ++ [93] = 123 :: tl).
  { subst items. cbn [List.map]. destruct l; cbn [List.map join_comma];
      unfold stringify_task at 1, SerializeJSONObject at 1;
      cbn [app]; eexists; reflexivity. }
  destruct Hhead as [tl Htl].
  set (text := 91 :: join_comma items ++ [93]).
  assert (Hfuel : exists g, (2 * length text = length (t :: l) + 6 + g)%nat).
  { exists (2 * length text - (length (t :: l) + 6))%nat. subst text.
    cbn [length] in *. rewrite length_app. cbn [length] in *. lia. }
  destruct Hfuel as [g Hg]. rewrite Hg. subst text.
  pose proof (parse_elements_tasks (t :: l) ltac:(congruence) g []) as He.
  fold items in He. rewrite Htl in He |- *.
  change (parse_value (S (length (t :: l) + 6 + g)) (91 :: 123 :: tl))
    with (with_value Array
            (parse_elements (length (t :: l) + 6 + g) (123 :: tl))).
  rewrite He. reflexivity.
Qed.

(** *** The fuel of [parse] is enough for every text *)

Lemma skip_ws_length (s : jsstring) : (length (skip_ws s) <= length s)%nat.
Proof.
  induction s as [| c r IH]; [reflexivity |].
  cbn [skip_ws]. destruct (is_ws c); cbn [length]; lia.
Qed.

Lemma next_is_length (c : N) (s r : jsstring) :
  next_is c s = Some r -> length s = S (length r).
Proof.
  destruct s as [| x s]; [discriminate |]. cbn [next_is].
  destruct (x =? c); [| discriminate]. by intros [= ->].
Qed.

Lemma cons_chars_Some (u : N) (x : option (jsstring * jsstring))
    (cs rest : jsstring) :
  cons_chars u x = Some (cs, rest) -> exists cs', x = Some (cs', rest).
Proof.
  destruct x as [[cs' rest'] |]; [| discriminate].
  intros [= _ ->]. by exists cs'.
Qed.

Lemma parse_chars_length (s cs rest : jsstring) :
  parse_chars s = Some (cs, rest) -> (length rest < length s)%nat.
Proof.
  remember (length s) as n eqn:Hn.
  assert (Hle : (length s <= n)%nat) by lia. clear Hn.
  revert s cs rest Hle.
  induction n as [| n IH]; intros s cs rest Hle H.
  { destruct s; [discriminate H | cbn [length] in Hle; lia]. }
  destruct s as [| c r]; [discriminate H |].
  cbn [length] in Hle. cbn [parse_chars] in H.
  destruct (c =? 34); [injection H as _ <-; cbn [length]; lia |].
  destruct (c =? 92).
  - destruct r as [| e r1]; [discriminate H |].
    destruct (e =? 117).
    + destruct r1 as [| h1 [| h2 [| h3 [| h4 r2]]]]; try discriminate H.
      destruct (hex4 h1 h2 h3 h4); [| discriminate H].
      apply cons_chars_Some in H as [cs' H].
      apply IH in H; cbn [length] in *; lia.
    + destruct (unescape e); [| discriminate H].
      apply cons_chars_Some in H as [cs' H].
      apply IH in H; cbn [length] in *; lia.
  - destruct (c <? 32); [discriminate H |].
    apply cons_chars_Some in H as [cs' H].
    apply IH in H; cbn [length] in *; lia.
Qed.

Lemma digits_length (s ds rest : jsstring) :
  digits s = (ds, rest) -> (length rest <= length s)%nat.
Proof.
  revert ds rest. induction s as [| c r IH]; intros ds rest H.
  - injection H as _ <-. reflexivity.
  - cbn [digits] in H. destruct (is_digit c).
    + destruct (digits r) as [ds' rest'] eqn:E. injection H as _ <-.
      specialize (IH _ _ eq_refl). cbn [length]. lia.
    + injection H as _ <-. reflexivity.
Qed.

Lemma parse_fraction_length (s fp rest : jsstring) :
  parse_fraction s = Some (fp, rest) -> (length rest <= length s)%nat.
Proof.
  unfold parse_fraction. destruct (next_is 46 s) as [r |] eqn:E.
  - apply next_is_length in E.
    destruct (digits r) as [[| d ds] rest'] eqn:Ed; [discriminate |].
    intros [= _ <-]. apply digits_length in Ed. lia.
  - by intros [= _ <-].
Qed.

Lemma parse_exponent_length (s ep rest : jsstring) :
  parse_exponent s = Some (ep, rest) -> (length rest <= length s)%nat.
Proof.
  unfold parse_exponent. destruct s as [| e r]; [by intros [= _ <-] |].
  destruct ((e =? 69) || (e =? 101)); [| by intros [= _ <-]].
  set (sign := match r with
               | [] => ([], r)
               | x :: r' => if (x =? 43) || (x =? 45) then ([x], r') else ([], r)
               end).
  assert (Hs : (length (snd sign) <= length r)%nat).
  { subst sign. destruct r as [| x r']; [reflexivity |].
    destruct ((x =? 43) || (x =? 45)); cbn [snd length]; lia. }
  destruct sign as [sg r1]. cbn [snd] in Hs.
  destruct (digits r1) as [[| d ds] rest'] eqn:Ed; [discriminate |].
  intros [= _ <-]. apply digits_length in Ed. cbn [length]. lia.
Qed.

Lemma parse_number_length (s lx rest : jsstring) :
  parse_number s = Some (lx, rest) -> (length rest < length s)%nat.
Proof.
  unfold parse_number.
  set (signed := match next_is 45 s with
                 | Some r => ([45], r)
                 | None => ([], s)
                 end).
  assert (Hs : (length (snd signed) <= length s)%nat).
  { subst signed. destruct (next_is 45 s) as [r |] eqn:E; cbn [snd]; [| lia].
    apply next_is_length in E. lia. }
  destruct signed as [sign s1]. cbn [snd] in Hs.
  destruct s1 as [| c r]; [discriminate |].
  destruct (is_digit c); [| discriminate].
  set (int := if c =? 48 then ([48], r)
              else let '(ds, rest0) := digits r in (c :: ds, rest0)).
  assert (Hi : (length (snd int) <= length r)%nat).
  { subst int. destruct (c =? 48); cbn [snd]; [lia |].
    destruct (digits r) as [ds rest0] eqn:Ed. apply digits_length in Ed.
    exact Ed. }
  destruct int as [ip s2]. cbn [snd] in Hi.
  destruct (parse_fraction s2) as [[fp s3] |] eqn:Ef; [| discriminate].
  destruct (parse_exponent s3) as [[ep s4] |] eqn:Ee; [| discriminate].
  intros [= _ <-].
  apply parse_fraction_length in Ef. apply parse_exponent_length in Ee.
  cbn [length] in Hs. lia.
Qed.

Lemma strip_prefix_length (p s rest : jsstring) :
  strip_prefix p s = Some rest -> (length rest <= length s)%nat.
Proof.
  revert s. induction p as [| a p IH]; intros s H.
  - cbn [strip_prefix] in H. by injection H as <-.
  - destruct s as [| b s]; [discriminate H |]. cbn [strip_prefix] in H.
    destruct (a =? b); [| discriminate H]. apply IH in H. cbn [length]. lia.
Qed.

Lemma keyword_length (p : jsstring) (v w : value) (r rest : jsstring) :
  keyword p v r = Some (w, rest) -> (length rest <= length r)%nat.
Proof.
  unfold keyword. destruct (strip_prefix p r) as [x |] eqn:E; [| discriminate].
  intros [= _ <-]. by apply strip_prefix_length in E.
Qed.

Lemma with_value_Some {A B} (g : A -> B) (x : option (A * jsstring))
    (b : B) (rest : jsstring) :
  with_value g x = Some (b, rest) -> exists a, x = Some (a, rest).
Proof.
  destruct x as [[a rest'] |]; [| discriminate].
  intros [= _ ->]. by exists a.
Qed.

Lemma parse_value_S (f : nat) (s : jsstring) :
  parse_value (S f) s
  = match skip_ws s with
    | [] => None
    | c :: r =>
        if c =? 34 then with_value Str (parse_chars r)
        else if c =? 91 then
          match next_is 93 (skip_ws r) with
          | Some rest => Some (Array [], rest)
          | None => with_value Array (parse_elements f r)
          end
        else if c =? 123 then
          match next_is 125 (skip_ws r) with
          | Some rest => Some (Object [], rest)
          | None => with_value build_object (parse_members f r)
          end
        else if c =? 116 then keyword (lit "rue") (Bool true) r
        else if c =? 102 then keyword (lit "alse") (Bool false) r
        else if c =? 110 then keyword (lit "ull") Null r
        else with_value Number (parse_number (c :: r))
    end.
Proof. reflexivity. Qed.

Lemma parse_members_S (f : nat) (s : jsstring) :
  parse_members (S f) s
  = match next_is 34 (skip_ws s) with
    | Some r =>
        match parse_chars r with
        | Some (k, r1) =>
            match next_is 58 (skip_ws r1) with
            | Some r2 =>
                match parse_value f r2 with
                | Some (v, r3) =>
                    match skip_ws r3 with
                    | [] => None
                    | c :: r4 =>
                        if c =? 44
                        then with_value (cons (k, v)) (parse_members f r4)
                        else if c =? 125 then Some ([(k, v)], r4)
                        else None
                    end
                | None => None
                end
            | None => None
            end
        | None => None
        end
    | None => None
    end.
Proof. reflexivity. Qed.

(** Every successful call leaves strictly less than it was given. *)
Lemma parse_consumes (f : nat) :
  (forall s v rest,
      parse_value f s = Some (v, rest) -> (length rest < length s)%nat)
  /\ (forall s vs rest,
        parse_elements f s = Some (vs, rest) -> (length rest < length s)%nat)
  /\ (forall s ms rest,
        parse_members f s = Some (ms, rest) -> (length rest < length s)%nat).
Proof.
  induction f as [| f (IHv & IHe & IHm)]; [repeat split; discriminate |].
  split; [| split].
  - intros s v rest. rewrite parse_value_S.
    pose proof (skip_ws_length s) as Hs.
    destruct (skip_ws s) as [| c r]; [discriminate |]. cbn [length] in Hs.
    destruct (c =? 34).
    { intros H. apply with_value_Some in H as [a H].
      apply parse_chars_length in H. lia. }
    destruct (c =? 91).
    { pose proof (skip_ws_length r) as Hr.
      destruct (next_is 93 (skip_ws r)) as [x |] eqn:E.
      - intros [= _ <-]. apply next_is_length in E. lia.
      - intros H. apply with_value_Some in H as [a H]. apply IHe in H. lia. }
    destruct (c =? 123).
    { pose proof (skip_ws_length r) as Hr.
      destruct (next_is 125 (skip_ws r)) as [x |] eqn:E.
      - intros [= _ <-]. apply next_is_length in E. lia.
      - intros H. apply with_value_Some in H as [a H]. apply IHm in H. lia. }
    destruct (c =? 116); [intros H; apply keyword_length in H; lia |].
    destruct (c =? 102); [intros H; apply keyword_length in H; lia |].
    destruct (c =? 110); [intros H; apply keyword_length in H; lia |].
    intros H. apply with_value_Some in H as [a H].
    apply parse_number_length in H. cbn [length] in H. lia.
  - intros s vs rest. rewrite parse_elements_S.
    destruct (parse_value f s) as [[v r] |] eqn:Ev; [| discriminate].
    apply IHv in Ev. pose proof (skip_ws_length r) as Hr.
    destruct (skip_ws r) as [| c r1]; [discriminate |]. cbn [length] in Hr.
    destruct (c =? 44).
    { intros H. apply with_value_Some in H as [a H]. apply IHe in H. lia. }
    destruct (c =? 93); [| discriminate]. intros [= _ <-]. lia.
  - intros s ms rest. rewrite parse_members_S.
    pose proof (skip_ws_length s) as Hs.
    destruct (next_is 34 (skip_ws s)) as [r |] eqn:E1; [| discriminate].
    apply next_is_length in E1.
    destruct (parse_chars r) as [[k r1] |] eqn:E2; [| discriminate].
    apply parse_chars_length in E2. pose proof (skip_ws_length r1) as Hr1.
    destruct (next_is 58 (skip_ws r1)) as [r2 |] eqn:E3; [| discriminate].
    apply next_is_length in E3.
    destruct (parse_value f r2) as [[v r3] |] eqn:E4; [| discriminate].
    apply IHv in E4. pose proof (skip_ws_length r3) as Hr3.
    destruct (skip_ws r3) as [| c r4]; [discriminate |]. cbn [length] in Hr3.
    destruct (c =? 44).
    { intros H. apply with_value_Some in H as [a H]. apply IHm in H. lia. }
    destruct (c =? 125); [| discriminate]. intros [= _ <-]. lia.
Qed.

(** With two calls of fuel per character and one more, more fuel changes
    nothing. *)
Lemma parse_fuel_enough (f : nat) :
  (forall s g,
      (2 * length s + 1 <= f)%nat -> (2 * length s + 1 <= g)%nat ->
      parse_value f s = parse_value g s)
  /\ (forall s g,
        (2 * length s + 2 <= f)%nat -> (2 * length s + 2 <= g)%nat ->
        parse_elements f s = parse_elements g s)
  /\ (forall s g,
        (2 * length s + 2 <= f)%nat -> (2 * length s + 2 <= g)%nat ->
        parse_members f s = parse_members g s).
Proof.
  induction f as [| f (IHv & IHe & IHm)]; [repeat split; intros; lia |].
  split; [| split].
  - intros s [| g] Hf Hg; [lia |]. rewrite !parse_value_S.
    pose proof (skip_ws_length s) as Hs.
    destruct (skip_ws s) as [| c r]; [reflexivity |]. cbn [length] in Hs.
    rewrite (IHe r g) by lia. rewrite (IHm r g) by lia. reflexivity.
  - intros s [| g] Hf Hg; [lia |]. rewrite !parse_elements_S.
    rewrite (IHv s g) by lia.
    destruct (parse_value g s) as [[v r] |] eqn:Ev; [| reflexivity].
    apply (proj1 (parse_consumes g)) in Ev.
    pose proof (skip_ws_length r) as Hr.
    destruct (skip_ws r) as [| c r1]; [reflexivity |]. cbn [length] in Hr.
    rewrite (IHe r1 g) by lia. reflexivity.
  - intros s [| g] Hf Hg; [lia |]. rewrite !parse_members_S.
    pose proof (skip_ws_length s) as Hs.
    destruct (next_is 34 (skip_ws s)) as [r |] eqn:E1; [| reflexivity].
    apply next_is_length in E1.
    destruct (parse_chars r) as [[k r1] |] eqn:E2; [| reflexivity].
    apply parse_chars_length in E2. pose proof (skip_ws_length r1) as Hr1.
    destruct (next_is 58 (skip_ws r1)) as [r2 |] eqn:E3; [| reflexivity].
    apply next_is_length in E3.
    rewrite (IHv r2 g) by lia.
    destruct (parse_value g r2) as [[v r3] |] eqn:E4; [| reflexivity].
    apply (proj1 (parse_consumes g)) in E4.
    pose proof (skip_ws_length r3) as Hr3.
    destruct (skip_ws r3) as [| c r4]; [reflexivity |]. cbn [length] in Hr3.
    rewrite (IHm r4 g) by lia. reflexivity.
Qed.

(** [parse] never fails for lack of fuel: any larger fuel reads the same
    value, or fails as well. *)
Lemma parse_value_fuel (text : jsstring) (g : nat) :
  (2 * length text + 1 <= g)%nat ->
  parse_value g text = parse_value (S (2 * length text)) text.
Proof.
  intros Hg. symmetry. apply (proj1 (parse_fuel_enough _)); lia.
Qed.

(** The value of a task list is read at the type [Task[]] as that list. *)
Lemma to_task_of_task (t : Task) : to_task (of_task t) = Some t.
Proof. destruct t as [i ti [d |] c]; reflexivity. Qed.

Lemma to_tasks_of_tasks (l : list Task) : to_tasks (of_tasks l) = Some l.
Proof.
  unfold to_tasks, of_tasks. induction l as [| t l IH]; [reflexivity |].
  cbn [List.map to_task_list]. rewrite to_task_of_task, IH. reflexivity.
Qed.

End JsonRoundTrip.

(** ** Pure list steps shared by both components *)

Section ListSteps.

Variable x : jsstring.

Lemma map_unmatched (g : Task -> Task) (l : list Task) :
  ~ In x (List.map id l) ->
  List.map (fun t => if strict_eq (id t) x then g t else t) l = l.
Proof.
  induction l as [| t l IH]; intros Hn; [reflexivity |].
  cbn [List.map] in *.
  rewrite (proj2 (strict_eq_false (id t) x)) by (intros E; apply Hn; left; exact E).
  rewrite IH by (intros Hin; apply Hn; right; exact Hin). reflexivity.
Qed.

Lemma map_flip_twice (l : list Task) :
  List.map (fun t => if strict_eq (id t) x then with_completed_flipped t else t)
    (List.map (fun t => if strict_eq (id t) x then with_completed_flipped t else t) l)
  = l.
Proof.
  induction l as [| [i ti d c] l IH]; [reflexivity |].
  cbn [List.map]. rewrite IH. f_equal. cbn [id].
  destruct (strict_eq i x) eqn:E.
  - unfold with_completed_flipped. cbn [id title description completed].
    rewrite E, negb_involutive. reflexivity.
  - cbn [id]. rewrite E. reflexivity.
Qed.

Lemma map_flip_toggled (l : list Task) :
  Forall2 (toggled_at x) l
    (List.map (fun t => if strict_eq (id t) x then with_completed_flipped t else t) l).
Proof.
  induction l as [| t l IH]; cbn [List.map]; constructor; [| exact IH].
  unfold toggled_at. destruct (strict_eq (id t) x); auto.
Qed.

End ListSteps.

(** ** The filter and the visible tasks *)

Lemma filter_views (l : list Task) :
  partitions l (fun f => List.filter (passes (lit f)) l).
Proof.
  unfold partitions.
  change (passes (lit "all")) with (fun _ : Task => true).
  change (passes (lit "complete")) with (fun t : Task => completed t).
  change (passes (lit "incomplete")) with (fun t : Task => negb (completed t)).
  assert (Hall : List.filter (fun _ : Task => true) l = l).
  { induction l as [| t l IH]; [reflexivity |]. cbn [List.filter]. by rewrite IH. }
  rewrite Hall. split; [reflexivity |].
  split; [| split; [| split]].
  - clear Hall. induction l as [| t l IH]; [reflexivity |].
    cbn [List.filter]. destruct (completed t); cbn [negb length] in *; lia.
  - clear Hall. induction l as [| t l IH]; [constructor |].
    cbn [List.filter]. destruct (completed t); cbn [negb app].
    + by constructor.
    + etransitivity; [apply perm_skip, IH |]. apply Permutation_middle.
  - clear Hall. induction l as [| t l IH]; [constructor |].
    cbn [List.filter]. destruct (completed t) eqn:E; [constructor |]; assumption.
  - clear Hall. induction l as [| t l IH]; [constructor |].
    cbn [List.filter]. destruct (completed t) eqn:E; cbn [negb];
      [| constructor]; assumption.
Qed.

(** C7. [setFilter] writes the filter cell and nothing else: the task list,
    the edit target, the selection and (where there is one) the durable
    record stay as they were.  The visible tasks under [all] are the whole
    list; those under [complete] and [incomplete] split it, so the three
    lengths add up, no task is in both parts and none is left out.  Both
    components. *)
Theorem setFilter_frame_and_partition
    (v : jsstring) (w : Persisted.World) (s : InMemory.State) :
  let w' := Persisted.run (Persisted.setFilter v) w in
  let s' := InMemory.setFilter v s in
  (Persisted.tasks (Persisted.ui w') = Persisted.tasks (Persisted.ui w)
   /\ Persisted.filter (Persisted.ui w') = v
   /\ Persisted.editTask (Persisted.ui w') = Persisted.editTask (Persisted.ui w)
   /\ Persisted.selectedTask (Persisted.ui w')
      = Persisted.selectedTask (Persisted.ui w)
   /\ Persisted.storage w' = Persisted.storage w)
  /\ (InMemory.tasks s' = InMemory.tasks s
      /\ InMemory.filter s' = v
      /\ InMemory.editTask s' = InMemory.editTask s
      /\ InMemory.selectedTask s' = InMemory.selectedTask s)
  /\ partitions (Persisted.tasks (Persisted.ui w))
       (fun f => Persisted.filteredTasks
                   (Persisted.ui
                      (Persisted.run (Persisted.setFilter (lit f)) w)))
  /\ partitions (InMemory.tasks s)
       (fun f => InMemory.filteredTasks (InMemory.setFilter (lit f) s)).
Proof.
  cbv zeta. split; [repeat split |]. split; [repeat split |].
  split; apply filter_views.
Qed.

(** ** Toggling *)

(** C9. [toggleCompleteTask(t)] flips [completed] on every task whose id is
    that of [t] and keeps its id, title and description; every other task,
    the order and the length stay.  Doing it twice gives the list back.
    In the persisted component this is the case where both saves are
    fulfilled.  Both components. *)
Theorem toggleCompleteTask_flip_involution
    (t : Task) (w : Persisted.World) (s : InMemory.State) :
  let once := Persisted.run (Persisted.toggleCompleteTask Persisted.Settles t) w in
  let twice :=
    Persisted.run (Persisted.toggleCompleteTask Persisted.Settles t) once in
  let once' := InMemory.toggleCompleteTask (id t) s in
  let twice' := InMemory.toggleCompleteTask (id t) once' in
  Forall2 (toggled_at (id t)) (Persisted.tasks (Persisted.ui w))
    (Persisted.tasks (Persisted.ui once))
  /\ Persisted.tasks (Persisted.ui twice) = Persisted.tasks (Persisted.ui w)
  /\ Forall2 (toggled_at (id t)) (InMemory.tasks s) (InMemory.tasks once')
  /\ InMemory.tasks twice' = InMemory.tasks s.
Proof.
  cbv zeta. repeat split.
  - apply map_flip_toggled.
  - apply map_flip_twice.
  - apply map_flip_toggled.
  - apply map_flip_twice.
Qed.

(** ** Committing an edit whose target is gone *)

(** C10. When no task of the list has the id of the edit target,
    [editExistingTask] completes normally and leaves the list as it was,
    whether the save is fulfilled or rejected.  Both components. *)
Theorem editExistingTask_absent_target_noop
    (o : Persisted.io) (data : TaskFormData.t) (w : Persisted.World)
    (s : InMemory.State) (e : Task) :
  Persisted.editTask (Persisted.ui w) = Some e ->
  ~ In (id e) (List.map id (Persisted.tasks (Persisted.ui w))) ->
  ~ In (id e) (List.map id (InMemory.tasks s)) ->
  fst (Persisted.editExistingTask o data w) = Persisted.Normal tt
  /\ Persisted.tasks (Persisted.ui (Persisted.run (Persisted.editExistingTask o data) w))
     = Persisted.tasks (Persisted.ui w)
  /\ InMemory.tasks (InMemory.editExistingTask e s) = InMemory.tasks s.
Proof.
  intros He Hw Hs. split; [| split].
  - unfold Persisted.editExistingTask, Persisted.bind, Persisted.read.
    rewrite He. destruct o; reflexivity.
  - unfold Persisted.run, Persisted.editExistingTask, Persisted.bind,
      Persisted.read.
    rewrite He. destruct o; cbn [snd fst].
    + apply (map_unmatched (id e)), Hw.
    + reflexivity.
  - apply (map_unmatched (id e)), Hs.
Qed.

(** C10 on a sample: [buy_milk] is under edit while the list holds only
    [walk_dog]. *)
Lemma editExistingTask_absent_target_noop_witness :
  fst (Persisted.editExistingTask Persisted.Settles
         (TaskFormData.mk (lit "Buy oat milk") None)
         (world_showing [walk_dog] (Some buy_milk)))
  = Persisted.Normal tt
  /\ Persisted.tasks
       (Persisted.ui
          (Persisted.run
             (Persisted.editExistingTask Persisted.Settles
                (TaskFormData.mk (lit "Buy oat milk") None))
             (world_showing [walk_dog] (Some buy_milk))))
     = [walk_dog]
  /\ InMemory.tasks
       (InMemory.editExistingTask buy_milk (state_showing [walk_dog] (Some buy_milk)))
     = [walk_dog].
Proof.
  apply (editExistingTask_absent_target_noop Persisted.Settles
           (TaskFormData.mk (lit "Buy oat milk") None)
           (world_showing [walk_dog] (Some buy_milk))
           (state_showing [walk_dog] (Some buy_milk)) buy_milk).
  - reflexivity.
  - vm_compute. intros [H | []]. discriminate H.
  - vm_compute. intros [H | []]. discriminate H.
Defined.

(** ** Loading and saving *)

Lemma stringify_not_empty (l : list Task) : JSON.stringify l <> [].
Proof. discriminate. Qed.

Lemma getAllTasks_stored (l : list Task) (w : Persisted.World) :
  Persisted.storage w !! lit "tasks" = Some (JSON.stringify l) ->
  Persisted.getAllTasks Persisted.Settles w
  = (Persisted.Normal (JSON.of_tasks l), w).
Proof.
  intros H.
  unfold Persisted.getAllTasks, Persisted.try_catch, Persisted.bind,
    Persisted.AsyncStorage_getItem.
  rewrite H. destruct (JSON.stringify l) as [| c r] eqn:E.
  { by apply stringify_not_empty in E. }
  rewrite <- E. unfold Persisted.JSON_parse.
  rewrite parse_stringify. reflexivity.
Qed.

(** C6. After [saveAllTasks(L)] whose write is fulfilled, [getAllTasks()]
    whose read is fulfilled returns the array of the tasks of [L]: read at
    the type [Task[]] it is [L] itself, task by task and field by field.
    The load logs nothing and changes nothing. *)
Theorem save_then_load_round_trip (L : list Task) (w : Persisted.World) :
  let saved := Persisted.run (Persisted.saveAllTasks Persisted.Settles L) w in
  Persisted.storage saved !! lit "tasks" = Some (JSON.stringify L)
  /\ JSON.parse (JSON.stringify L) = Some (JSON.of_tasks L)
  /\ Persisted.getAllTasks Persisted.Settles saved
     = (Persisted.Normal (JSON.of_tasks L), saved)
  /\ JSON.to_tasks (JSON.of_tasks L) = Some L.
Proof.
  cbv zeta.
  assert (H : Persisted.storage
                (Persisted.run (Persisted.saveAllTasks Persisted.Settles L) w)
              !! lit "tasks" = Some (JSON.stringify L)).
  { unfold Persisted.run, Persisted.saveAllTasks, Persisted.try_catch,
      Persisted.bind, Persisted.AsyncStorage_setItem, Persisted.setTasks,
      Persisted.update.
    cbn [fst snd Persisted.storage]. apply lookup_insert_eq. }
  split; [exact H |]. split; [apply parse_stringify |].
  split; [apply getAllTasks_stored, H | apply to_tasks_of_tasks].
Qed.

(** C8. [getAllTasks] always completes normally, and never touches the
    component or the store.  When the read is rejected, when nothing is
    stored, and when the stored text is no JSON, its value is the empty
    array; a rejected read and an unreadable text are reported on the
    console only: the console keeps its lines and gains one line with the
    error of the read, or one line with the SyntaxError of the parse, and
    gains nothing when nothing, the empty text or the text of a value is
    stored.  When the store holds what [saveAllTasks(L)] wrote, its value
    is the array of the tasks of [L]. *)
Theorem getAllTasks_never_raises
    (o : Persisted.io) (w : Persisted.World) (L : list Task) (e : jsstring) :
  (exists v,
      fst (Persisted.getAllTasks o w) = Persisted.Normal v
      /\ load_outcome o w v)
  /\ Persisted.ui (Persisted.run (Persisted.getAllTasks o) w) = Persisted.ui w
  /\ Persisted.storage (Persisted.run (Persisted.getAllTasks o) w)
     = Persisted.storage w
  /\ fst (Persisted.getAllTasks Persisted.Settles
            (Persisted.mkWorld (Persisted.ui w)
               (<[lit "tasks" := JSON.stringify L]> (Persisted.storage w))
               (Persisted.console w)))
     = Persisted.Normal (JSON.of_tasks L)
  /\ Persisted.getAllTasks (Persisted.Rejects e) w
     = (Persisted.Normal (JSON.Array []),
        Persisted.mkWorld (Persisted.ui w) (Persisted.storage w)
          (Persisted.console w ++ [(lit "Erro ao carregar tarefas:", e)]))
  /\ (exists log,
        Persisted.console (Persisted.run (Persisted.getAllTasks o) w)
        = Persisted.console w ++ log
        /\ load_report o w log).
Proof.
  split; [| split; [| split; [| split; [| split]]]]; [| | | | reflexivity |].
  - unfold Persisted.getAllTasks, Persisted.try_catch, Persisted.bind,
      Persisted.AsyncStorage_getItem.
    destruct o as [| e'].
    + destruct (Persisted.storage w !! lit "tasks") as [[| c r] |] eqn:Hs.
      * exists (JSON.Array []). split; [reflexivity |].
        by apply (load_unparseable _ _ []).
      * unfold Persisted.JSON_parse.
        destruct (JSON.parse (c :: r)) as [v |] eqn:Hp.
        -- exists v. split; [reflexivity |]. by apply (load_parsed _ _ (c :: r)).
        -- exists (JSON.Array []). split; [reflexivity |].
           by apply (load_unparseable _ _ (c :: r)).
      * exists (JSON.Array []). split; [reflexivity |]. by apply load_absent.
    + exists (JSON.Array []). split; [reflexivity |].
      by apply (load_unavailable _ _ e').
  - unfold Persisted.run, Persisted.getAllTasks, Persisted.try_catch,
      Persisted.bind, Persisted.AsyncStorage_getItem.
    destruct o as [| e']; [| reflexivity].
    destruct (Persisted.storage w !! lit "tasks") as [[| c r] |];
      try reflexivity.
    unfold Persisted.JSON_parse. destruct (JSON.parse (c :: r)); reflexivity.
  - unfold Persisted.run, Persisted.getAllTasks, Persisted.try_catch,
      Persisted.bind, Persisted.AsyncStorage_getItem.
    destruct o as [| e']; [| reflexivity].
    destruct (Persisted.storage w !! lit "tasks") as [[| c r] |];
      try reflexivity.
    unfold Persisted.JSON_parse. destruct (JSON.parse (c :: r)); reflexivity.
  - rewrite (getAllTasks_stored L); [reflexivity |].
    cbn [Persisted.storage]. apply lookup_insert_eq.
  - unfold Persisted.run, Persisted.getAllTasks, Persisted.try_catch,
      Persisted.bind, Persisted.AsyncStorage_getItem.
    destruct o as [| e'].
    + destruct (Persisted.storage w !! lit "tasks") as [[| c r] |] eqn:Hs.
      * exists []. split; [cbn; by rewrite app_nil_r |]. by apply report_empty.
      * unfold Persisted.JSON_parse.
        destruct (JSON.parse (c :: r)) as [v |] eqn:Hp.
        -- exists []. split; [cbn; by rewrite app_nil_r |].
           by apply (report_parsed _ _ (c :: r) v).
        -- exists [(lit "Erro ao carregar tarefas:", lit "SyntaxError")].
           split; [reflexivity |].
           by apply (report_unparseable _ _ (c :: r)).
      * exists []. split; [cbn; by rewrite app_nil_r |]. by apply report_absent.
    + exists [(lit "Erro ao carregar tarefas:", e')].
      split; [reflexivity |]. by apply (report_unavailable _ _ e').
Qed.

(** ** A save that is rejected *)

(** C2, as the code has it.  When the write is rejected, [saveAllTasks]
    never reaches [setTasks]: the component and the store are as before
    and the error is on the console.  So after [addTask],
    [editExistingTask], [deleteTask] and [toggleCompleteTask] with a
    rejected write the task list is the one from before the operation, and
    so is the stored record. *)
Theorem rejected_save_publishes_nothing
    (e : jsstring) (w : Persisted.World) (now : N) (data : TaskFormData.t)
    (t : Task) (l : list Task) :
  let kept (w' : Persisted.World) :=
    Persisted.tasks (Persisted.ui w') = Persisted.tasks (Persisted.ui w)
    /\ Persisted.storage w' = Persisted.storage w in
  Persisted.saveAllTasks (Persisted.Rejects e) l w
  = (Persisted.Normal tt,
     Persisted.mkWorld (Persisted.ui w) (Persisted.storage w)
       (Persisted.console w ++ [(lit "Erro ao salvar tarefas:", e)]))
  /\ kept (Persisted.run (Persisted.addTask now (Persisted.Rejects e) data) w)
  /\ kept (Persisted.run (Persisted.editExistingTask (Persisted.Rejects e) data) w)
  /\ kept (Persisted.run (Persisted.deleteTask (Persisted.Rejects e) t) w)
  /\ kept (Persisted.run (Persisted.toggleCompleteTask (Persisted.Rejects e) t) w).
Proof.
  cbv zeta. split; [reflexivity |]. split; [split; reflexivity |].
  split; [| split; split; reflexivity].
  unfold Persisted.run, Persisted.editExistingTask, Persisted.bind,
    Persisted.read.
  destruct (Persisted.editTask (Persisted.ui w)); split; reflexivity.
Qed.

(** C2, as the claim has it, fails: [buy_milk] is shown and stored, the
    write of the toggled list is rejected, and the component still shows
    the old list, which is also what the store holds. *)
Lemma rejected_save_keeps_old_list :
  let w := world_showing [buy_milk] None in
  let after :=
    Persisted.run
      (Persisted.toggleCompleteTask (Persisted.Rejects quota_exceeded) buy_milk)
      w in
  let passed_to_save := [with_completed_flipped buy_milk] in
  Persisted.tasks (Persisted.ui after) <> passed_to_save
  /\ Persisted.tasks (Persisted.ui after) = [buy_milk]
  /\ Persisted.storage after !! lit "tasks"
     = Some (JSON.stringify (Persisted.tasks (Persisted.ui after))).
Proof.
  cbv zeta. split; [| split].
  - vm_compute. discriminate.
  - reflexivity.
  - vm_compute. reflexivity.
Qed.

(** ** Creating tasks *)

Lemma lit_inj (a b : string) : lit a = lit b -> a = b.
Proof.
  revert b. induction a as [| x a IH]; intros [| y b] H; try discriminate H.
  - reflexivity.
  - cbn [lit] in H. injection H as Hxy Hab.
    f_equal; [| by apply IH].
    rewrite <- (ascii_N_embedding x), <- (ascii_N_embedding y). by rewrite Hxy.
Qed.

Lemma N_to_uint_nonnil (n : N) : N.to_uint n <> Decimal.Nil.
Proof.
  destruct n as [| q]; [discriminate |].
  apply DecimalPos.Unsigned.to_uint_nonnil.
Qed.

(** Two readings of the clock give the same id only if they are equal. *)
Lemma Number_toString_inj (m n : N) :
  Number_toString m = Number_toString n -> m = n.
Proof.
  unfold Number_toString. intros H. apply lit_inj in H.
  apply (f_equal NilZero.uint_of_string) in H.
  rewrite !NilZero.usu in H by apply N_to_uint_nonnil.
  injection H as H. by apply DecimalN.Unsigned.to_uint_inj.
Qed.

Lemma addTasks_appends (calls : list (N * TaskFormData.t)) (w : Persisted.World) :
  Persisted.tasks (Persisted.ui (addTasks calls w))
  = Persisted.tasks (Persisted.ui w) ++ List.map created calls.
Proof.
  revert w. induction calls as [| call calls IH]; intros w; cbn [addTasks List.map].
  - by rewrite app_nil_r.
  - rewrite IH. change (?l ++ created call :: ?r) with (l ++ [created call] ++ r).
    rewrite app_assoc. reflexivity.
Qed.

(** What the persisted [addTask] does guarantee: the list grows by one
    task per call, in call order, and the ids stay pairwise distinct as
    long as the clock readings are pairwise distinct and none of them
    prints as an id already in the list. *)
Lemma addTasks_fresh_readings
    (calls : list (N * TaskFormData.t)) (w : Persisted.World) :
  NoDup (List.map id (Persisted.tasks (Persisted.ui w))) ->
  NoDup (List.map fst calls) ->
  (forall call, In call calls ->
     ~ In (Number_toString (fst call))
          (List.map id (Persisted.tasks (Persisted.ui w)))) ->
  length (Persisted.tasks (Persisted.ui (addTasks calls w)))
  = (length (Persisted.tasks (Persisted.ui w)) + length calls)%nat
  /\ NoDup (List.map id (Persisted.tasks (Persisted.ui (addTasks calls w)))).
Proof.
  intros Hold Hnew Hfresh. rewrite addTasks_appends. split.
  - by rewrite length_app, length_map.
  - rewrite map_app, map_map. apply NoDup_app. split; [exact Hold |].
    split.
    + intros x Hx Hin. apply list_elem_of_In in Hx.
      apply list_elem_of_In, in_map_iff in Hin as (call & <- & Hc).
      by apply (Hfresh call Hc).
    + clear Hfresh. induction calls as [| call calls IH]; [constructor |].
      cbn [List.map] in *. apply NoDup_cons in Hnew as [Hhead Htail].
      apply NoDup_cons. split; [| by apply IH].
      intros Hin. apply Hhead.
      apply list_elem_of_In, in_map_iff in Hin as (c' & Heq & Hc').
      apply Number_toString_inj in Heq. apply list_elem_of_In.
      rewrite <- Heq. by apply in_map.
Qed.

(** The in-memory [addTask] appends one task whose id is the draw. *)
Lemma in_memory_addTask_appends (random : jsstring) (s : InMemory.State) :
  trim (InMemory.newTitle s) <> [] ->
  InMemory.tasks (InMemory.addTask random s)
  = InMemory.tasks s
    ++ [mkTask random (InMemory.newTitle s)
          (Some (InMemory.newDescription s)) false].
Proof.
  intros Hne. unfold InMemory.addTask.
  rewrite (proj2 (strict_eq_false _ _) Hne).
  cbn [InMemory.tasks InMemory.setNewDescription InMemory.setNewTitle
         InMemory.setTasks].
  do 3 f_equal. unfold or_empty. by destruct (InMemory.newDescription s).
Qed.

(** C1 at its failing input.  Two tasks are submitted while the clock
    shows the same millisecond: both are appended, and both get that
    reading as their id.  The same happens in the in-memory component when
    the random source gives the same number twice. *)
Theorem addTask_ids_collide :
  let w1 :=
    Persisted.run (Persisted.handleSubmit 1700000000000 Persisted.Settles)
      (Persisted.run (typed "Buy milk") fresh_world) in
  let w2 :=
    Persisted.run (Persisted.handleSubmit 1700000000000 Persisted.Settles)
      (Persisted.run (typed "Walk dog") w1) in
  let s1 :=
    InMemory.pressSubmit (lit "0.5")
      (InMemory.setNewTitle (lit "Buy milk") InMemory.initial) in
  let s2 :=
    InMemory.pressSubmit (lit "0.5") (InMemory.setNewTitle (lit "Walk dog") s1) in
  List.map title (Persisted.tasks (Persisted.ui w2))
  = [lit "Buy milk"; lit "Walk dog"]
  /\ List.map id (Persisted.tasks (Persisted.ui w2))
     = [lit "1700000000000"; lit "1700000000000"]
  /\ ~ NoDup (List.map id (Persisted.tasks (Persisted.ui w2)))
  /\ List.map title (InMemory.tasks s2) = [lit "Buy milk"; lit "Walk dog"]
  /\ List.map id (InMemory.tasks s2) = [lit "0.5"; lit "0.5"]
  /\ ~ NoDup (List.map id (InMemory.tasks s2)).
Proof.
  cbv zeta.
  assert (Hdup : forall x : jsstring, ~ NoDup [x; x]).
  { intros x H. apply NoDup_cons in H as [H _]. apply H. by left. }
  repeat split; try (vm_compute; reflexivity).
  - change (~ NoDup [lit "1700000000000"; lit "1700000000000"]). apply Hdup.
  - change (~ NoDup [lit "0.5"; lit "0.5"]). apply Hdup.
Qed.

(** ** Blank titles *)

Lemma trim_blank (s : jsstring) : forallb is_white_space s = true -> trim s = [].
Proof.
  intros H. unfold trim.
  assert (Hs : trimStart s = []).
  { induction s as [| c r IH]; [reflexivity |].
    cbn [forallb] in H. apply andb_true_iff in H as [Hc Hr].
    cbn [trimStart]. rewrite Hc. by apply IH. }
  rewrite Hs. reflexivity.
Qed.

(** The in-memory [addTask] checks the title itself: a title of white
    space only, the empty one included, changes nothing. *)
Lemma in_memory_addTask_blank_noop (random : jsstring) (s : InMemory.State) :
  forallb is_white_space (InMemory.newTitle s) = true ->
  InMemory.addTask random s = s.
Proof.
  intros H. unfold InMemory.addTask. rewrite (trim_blank _ H). reflexivity.
Qed.

(** In the persisted component the empty title is stopped by the schema,
    before [addTask] runs. *)
Lemma persisted_handleSubmit_empty_title
    (now : N) (o : Persisted.io) (w : Persisted.World) :
  TaskFormData.title (Persisted.values (Persisted.ui w)) = [] ->
  Persisted.tasks (Persisted.ui (Persisted.run (Persisted.handleSubmit now o) w))
  = Persisted.tasks (Persisted.ui w)
  /\ Persisted.storage (Persisted.run (Persisted.handleSubmit now o) w)
     = Persisted.storage w
  /\ Persisted.errors_title
       (Persisted.ui (Persisted.run (Persisted.handleSubmit now o) w))
     = Some Persisted.title_required.
Proof.
  intros H.
  unfold Persisted.run, Persisted.handleSubmit, Persisted.bind, Persisted.read,
    Persisted.taskSchema.
  rewrite H. repeat split.
Qed.

(** C3 at its failing input.  The persisted [addTask] has no check of its
    own and the schema in front of it only asks for one code unit: a title
    of one space passes the form and is appended and saved, and [addTask]
    called with the empty title appends a task with the empty title. *)
Theorem persisted_addTask_accepts_blank_title :
  let w1 :=
    Persisted.run (Persisted.handleSubmit 1700000000000 Persisted.Settles)
      (Persisted.run (typed " ") fresh_world) in
  let w2 :=
    Persisted.run
      (Persisted.addTask 1700000000000 Persisted.Settles TaskFormData.empty)
      fresh_world in
  trim (lit " ") = []
  /\ Persisted.tasks (Persisted.ui fresh_world) = []
  /\ Persisted.tasks (Persisted.ui w1)
     = [mkTask (lit "1700000000000") (lit " ") (Some []) false]
  /\ Persisted.storage w1 !! lit "tasks"
     = Some (JSON.stringify
               [mkTask (lit "1700000000000") (lit " ") (Some []) false])
  /\ Persisted.tasks (Persisted.ui w2)
     = [mkTask (lit "1700000000000") [] (Some []) false].
Proof. cbv zeta. repeat split; vm_compute; reflexivity. Qed.

(** ** Committing an edit *)

(** The persisted [editExistingTask] rebuilds the matching task from the
    list element: title and description are replaced, id and [completed]
    are those in the list, every other task and the order are kept. *)
Lemma persisted_editExistingTask_frame
    (data : TaskFormData.t) (w : Persisted.World) (e : Task) :
  Persisted.editTask (Persisted.ui w) = Some e ->
  Forall2
    (edited_at (id e) (TaskFormData.title data)
       (or_empty (TaskFormData.description data)))
    (Persisted.tasks (Persisted.ui w))
    (Persisted.tasks
       (Persisted.ui
          (Persisted.run (Persisted.editExistingTask Persisted.Settles data) w)))
  /\ Persisted.editTask
       (Persisted.ui
          (Persisted.run (Persisted.editExistingTask Persisted.Settles data) w))
     = None.
Proof.
  intros He.
  unfold Persisted.run, Persisted.editExistingTask, Persisted.bind,
    Persisted.read.
  rewrite He. cbn [snd fst]. split; [| reflexivity].
  cbn [Persisted.tasks Persisted.ui Persisted.with_tasks].
  induction (Persisted.tasks (Persisted.ui w)) as [| t l IH];
    cbn [List.map]; constructor; [| exact IH].
  unfold edited_at. destruct (strict_eq (id t) (id e)); cbn; auto.
Qed.

(** C4 at its failing input, in the in-memory component.  An edit of
    [buy_milk] is begun, the task is then marked complete from the options
    menu, and the edit is committed: the replacement is built from the
    copy taken when the edit began, so the task is incomplete again. *)
Theorem in_memory_edit_restores_stale_completed :
  let s0 := state_showing [buy_milk] None in
  let s1 := InMemory.handleOptionsAction (lit "edit")
              (InMemory.openOptions buy_milk s0) in
  let s2 := InMemory.pressToggle (InMemory.openOptions buy_milk s1) in
  let s3 := InMemory.pressSubmit (lit "0.5")
              (InMemory.setNewTitle (lit "Buy oat milk") s2) in
  InMemory.editTask s2 = Some buy_milk
  /\ InMemory.tasks s2 = [mkTask (id buy_milk) (lit "Buy milk") (Some []) true]
  /\ InMemory.tasks s3
     = [mkTask (id buy_milk) (lit "Buy oat milk") (Some []) false]
  /\ List.map completed (InMemory.tasks s3)
     <> List.map completed (InMemory.tasks s2).
Proof.
  cbv zeta. repeat split; try (vm_compute; reflexivity).
  vm_compute. discriminate.
Qed.

(** ** Deleting the task under edit *)

(** In the persisted component a task is deleted from its options menu,
    and opening the menu has already cleared the edit target. *)
Lemma persisted_delete_clears_edit_target (t : Task) (w : Persisted.World) :
  let w' :=
    Persisted.run (Persisted.handleOptionsAction Persisted.Settles (lit "delete"))
      (Persisted.run (Persisted.openOptions t) w) in
  Persisted.tasks (Persisted.ui w')
  = List.filter (fun u => negb (strict_eq (id u) (id t)))
      (Persisted.tasks (Persisted.ui w))
  /\ Persisted.editTask (Persisted.ui w') = None
  /\ Persisted.selectedTask (Persisted.ui w') = None.
Proof. cbv zeta. repeat split. Qed.

Lemma dispatch_edit_or_menu (i : intent) (w : Persisted.World) :
  edit_or_menu (Persisted.ui w) ->
  edit_or_menu (Persisted.ui (Persisted.run (dispatch i) w)).
Proof.
  unfold edit_or_menu. intros H.
  destruct i as [v | now o | | v | t | o action]; cbn [dispatch].
  - exact H.
  - unfold Persisted.run, Persisted.handleSubmit, Persisted.bind,
      Persisted.read.
    destruct (Persisted.taskSchema (Persisted.values (Persisted.ui w)));
      [exact H |].
    unfold Persisted.editExistingTask, Persisted.bind, Persisted.read.
    cbn [Persisted.setErrors Persisted.update Persisted.ui Persisted.editTask
           fst snd].
    destruct (Persisted.editTask (Persisted.ui w)) as [e |] eqn:He.
    + left. destruct o; reflexivity.
    + left. destruct o; cbn; first [exact He | reflexivity].
  - by left.
  - exact H.
  - by left.
  - right. unfold Persisted.run, Persisted.handleOptionsAction, Persisted.bind,
      Persisted.read.
    destruct (Persisted.selectedTask (Persisted.ui w)) as [sel |];
      [| reflexivity].
    destruct (strict_eq action (lit "complete")
              || strict_eq action (lit "incomplete"));
      [destruct o; reflexivity |].
    destruct (strict_eq action (lit "edit")); [reflexivity |].
    destruct (strict_eq action (lit "delete")); [destruct o; reflexivity |].
    reflexivity.
Qed.

Lemma dispatch_all_edit_or_menu (intents : list intent) (w : Persisted.World) :
  edit_or_menu (Persisted.ui w) ->
  edit_or_menu (Persisted.ui (dispatch_all intents w)).
Proof.
  revert w. induction intents as [| i intents IH]; intros w Hw; [exact Hw |].
  cbn [dispatch_all]. apply IH, dispatch_edit_or_menu, Hw.
Qed.

(** Whatever the user did since the start, no edit is open while the
    options menu is; so when a task is deleted from the menu of the
    persisted component, there is no edit target, before or after. *)
Lemma persisted_delete_has_no_edit_target
    (intents : list intent) (o : Persisted.io) :
  let w := dispatch_all intents fresh_world in
  Persisted.selectedTask (Persisted.ui w) <> None ->
  Persisted.editTask (Persisted.ui w) = None
  /\ Persisted.editTask
       (Persisted.ui
          (Persisted.run (Persisted.handleOptionsAction o (lit "delete")) w))
     = None.
Proof.
  cbv zeta. intros Hsel.
  destruct (dispatch_all_edit_or_menu intents fresh_world (or_introl eq_refl))
    as [He | Hs]; [| contradiction].
  split; [exact He |].
  unfold Persisted.run, Persisted.handleOptionsAction, Persisted.bind,
    Persisted.read.
  destruct (Persisted.selectedTask (Persisted.ui (dispatch_all intents fresh_world)))
    as [sel |]; [| contradiction].
  destruct o; cbn; exact He.
Qed.

(** C5 at its failing input, in the in-memory component.  [buy_milk] is
    under edit and is deleted from its options menu: it leaves the list,
    and the edit target still holds it. *)
Theorem in_memory_delete_keeps_edit_target :
  let s0 := state_showing [buy_milk] None in
  let s1 := InMemory.handleOptionsAction (lit "edit")
              (InMemory.openOptions buy_milk s0) in
  let s2 := InMemory.handleOptionsAction (lit "delete")
              (InMemory.openOptions buy_milk s1) in
  InMemory.editTask s1 = Some buy_milk
  /\ InMemory.tasks s2 = []
  /\ InMemory.editTask s2 = Some buy_milk
  /\ InMemory.editTask
       (InMemory.deleteTask (id buy_milk) (state_showing [buy_milk] (Some buy_milk)))
     = Some buy_milk.
Proof. cbv zeta. repeat split; vm_compute; reflexivity. Qed.

(** * Further properties of the two components *)

(** ** One handler at a time *)

(** A handler either leaves the list and the store alone, or has written
    the list it now shows under the key [tasks]. *)
Lemma dispatch_effect (i : intent) (w : Persisted.World) :
  let w' := Persisted.run (dispatch i) w in
  (Persisted.tasks (Persisted.ui w') = Persisted.tasks (Persisted.ui w)
   /\ Persisted.storage w' = Persisted.storage w)
  \/ Persisted.storage w'
     = <[lit "tasks" := JSON.stringify (Persisted.tasks (Persisted.ui w'))]>
         (Persisted.storage w).
Proof.
  cbv zeta.
  destruct i as [v | now o | | v | t | o action]; cbn [dispatch];
    try (left; split; reflexivity).
  - unfold Persisted.run, Persisted.handleSubmit, Persisted.bind,
      Persisted.read.
    destruct (Persisted.taskSchema (Persisted.values (Persisted.ui w)));
      [left; split; reflexivity |].
    unfold Persisted.editExistingTask, Persisted.bind, Persisted.read.
    cbn [Persisted.setErrors Persisted.update Persisted.ui Persisted.editTask
           fst snd].
    destruct (Persisted.editTask (Persisted.ui w)) as [e |];
      (destruct o; [right; reflexivity | left; split; reflexivity]).
  - unfold Persisted.run, Persisted.handleOptionsAction, Persisted.bind,
      Persisted.read.
    destruct (Persisted.selectedTask (Persisted.ui w)) as [sel |];
      [| left; split; reflexivity].
    destruct (strict_eq action (lit "complete")
              || strict_eq action (lit "incomplete"));
      [destruct o; [right; reflexivity | left; split; reflexivity] |].
    destruct (strict_eq action (lit "edit")); [left; split; reflexivity |].
    destruct (strict_eq action (lit "delete"));
      [destruct o; [right; reflexivity | left; split; reflexivity] |].
    left; split; reflexivity.
Qed.

Lemma dispatch_mirrored (i : intent) (w : Persisted.World) :
  mirrored w -> mirrored (Persisted.run (dispatch i) w).
Proof.
  intros H. destruct (dispatch_effect i w) as [[Ht Hs] | Hs];
    unfold mirrored in *.
  - rewrite Hs, Ht. exact H.
  - rewrite Hs, lookup_insert_eq. reflexivity.
Qed.

Lemma dispatch_all_mirrored (intents : list intent) (w : Persisted.World) :
  mirrored w -> mirrored (dispatch_all intents w).
Proof.
  revert w. induction intents as [| i intents IH]; intros w Hw; [exact Hw |].
  cbn [dispatch_all]. apply IH, dispatch_mirrored, Hw.
Qed.

Lemma mount_mirrored (w : Persisted.World) :
  mirrored w ->
  mount Persisted.Settles (restart w)
  = Some (Persisted.run (Persisted.setTasks (Persisted.tasks (Persisted.ui w)))
            (restart w)).
Proof.
  unfold mirrored, mount. intros H.
  destruct (Persisted.storage w !! lit "tasks") as [text |] eqn:Hs.
  - subst text. rewrite (getAllTasks_stored (Persisted.tasks (Persisted.ui w)))
      by exact Hs.
    rewrite to_tasks_of_tasks. reflexivity.
  - unfold Persisted.getAllTasks, Persisted.try_catch, Persisted.bind,
      Persisted.AsyncStorage_getItem.
    cbn [restart Persisted.storage]. rewrite Hs, H. reflexivity.
Qed.

(** ** Sessions of the persisted component *)

(** X1. In the persisted component an edit and an options menu are never
    open together: after any sequence of user actions from a fresh start,
    with any storage answers, [editTask] or [selectedTask] is empty. *)
Theorem session_never_edits_with_menu_open (intents : list intent) :
  edit_or_menu (Persisted.ui (dispatch_all intents fresh_world)).
Proof. apply dispatch_all_edit_or_menu. by left. Qed.

(** X2. The stored record follows the screen.  If the record under
    [tasks] is the text of the list shown (or there is no record and the
    list is empty), this is still so after any sequence of user actions,
    whichever saves are fulfilled and whichever are rejected, the handlers
    running one after the other. *)
Theorem session_keeps_store_and_screen_equal
    (intents : list intent) (w : Persisted.World) :
  mirrored w -> mirrored (dispatch_all intents w).
Proof. apply dispatch_all_mirrored. Qed.

Lemma session_keeps_store_and_screen_equal_witness :
  mirrored
    (dispatch_all
       [OpenOptions buy_milk;
        ChooseAction (Persisted.Rejects quota_exceeded) (lit "delete");
        OpenOptions buy_milk;
        ChooseAction Persisted.Settles (lit "complete")]
       (world_showing [buy_milk; walk_dog] None)).
Proof.
  apply (session_keeps_store_and_screen_equal
           [OpenOptions buy_milk;
            ChooseAction (Persisted.Rejects quota_exceeded) (lit "delete");
            OpenOptions buy_milk;
            ChooseAction Persisted.Settles (lit "complete")]
           (world_showing [buy_milk; walk_dog] None)).
  vm_compute. reflexivity.
Defined.

(** X3. A restart shows what was on the screen.  From a state whose
    stored record is the text of the list shown, after any sequence of
    user actions, mounting a new instance with a fulfilled read puts
    exactly the list last shown into [tasks], and leaves the store and the
    console as they were. *)
Theorem session_survives_restart
    (intents : list intent) (w : Persisted.World) :
  mirrored w ->
  exists w',
    mount Persisted.Settles (restart (dispatch_all intents w)) = Some w'
    /\ Persisted.tasks (Persisted.ui w')
       = Persisted.tasks (Persisted.ui (dispatch_all intents w))
    /\ Persisted.storage w' = Persisted.storage (dispatch_all intents w)
    /\ Persisted.console w' = Persisted.console (dispatch_all intents w)
    /\ Persisted.editTask (Persisted.ui w') = None
    /\ Persisted.selectedTask (Persisted.ui w') = None.
Proof.
  intros H. apply (dispatch_all_mirrored intents) in H.
  eexists. split; [apply mount_mirrored, H |]. repeat split.
Qed.

Lemma session_survives_restart_witness :
  exists w',
    mount Persisted.Settles
      (restart
         (dispatch_all
            [TypeText (TaskFormData.mk (lit "Buy milk") None);
             PressSubmit 1700000000000 Persisted.Settles;
             TypeText (TaskFormData.mk (lit "Walk dog") None);
             PressSubmit 1700000000001 (Persisted.Rejects quota_exceeded)]
            fresh_world))
    = Some w'
    /\ Persisted.tasks (Persisted.ui w') = [buy_milk].
Proof.
  destruct (session_survives_restart
              [TypeText (TaskFormData.mk (lit "Buy milk") None);
               PressSubmit 1700000000000 Persisted.Settles;
               TypeText (TaskFormData.mk (lit "Walk dog") None);
               PressSubmit 1700000000001 (Persisted.Rejects quota_exceeded)]
              fresh_world)
    as (w' & Hm & Ht & _).
  - vm_compute. reflexivity.
  - exists w'. split; [exact Hm |]. rewrite Ht. vm_compute. reflexivity.
Defined.

(** X4. The component writes one key only: after any sequence of user
    actions every key of the store other than [tasks] holds what it held
    before. *)
Theorem session_writes_only_the_tasks_key
    (intents : list intent) (w : Persisted.World) (k : jsstring) :
  k <> lit "tasks" ->
  Persisted.storage (dispatch_all intents w) !! k = Persisted.storage w !! k.
Proof.
  intros Hk. revert w. induction intents as [| i intents IH]; intros w;
    [reflexivity |].
  cbn [dispatch_all]. rewrite IH.
  destruct (dispatch_effect i w) as [[_ Hs] | Hs]; rewrite Hs;
    [reflexivity |].
  apply lookup_insert_ne. congruence.
Qed.

Lemma session_writes_only_the_tasks_key_witness :
  Persisted.storage
    (dispatch_all
       [TypeText (TaskFormData.mk (lit "Walk dog") None);
        PressSubmit 1700000000001 Persisted.Settles]
       (world_showing [buy_milk] None))
  !! lit "theme"
  = Persisted.storage (world_showing [buy_milk] None) !! lit "theme".
Proof.
  apply (session_writes_only_the_tasks_key
           [TypeText (TaskFormData.mk (lit "Walk dog") None);
            PressSubmit 1700000000001 Persisted.Settles]
           (world_showing [buy_milk] None) (lit "theme")).
  vm_compute. discriminate.
Defined.

(** X5. No handler of the persisted component throws: whatever the user
    does and however the storage call ends, the handler completes
    normally, and the console keeps its lines and gains at most one. *)
Theorem handlers_never_throw (i : intent) (w : Persisted.World) :
  fst (dispatch i w) = Persisted.Normal tt
  /\ exists log,
       Persisted.console (Persisted.run (dispatch i) w)
       = Persisted.console w ++ log
       /\ (length log <= 1)%nat.
Proof.
  assert (Hnil : forall l : list (jsstring * jsstring),
            exists log, l = l ++ log /\ (length log <= 1)%nat).
  { intros l. exists []. rewrite app_nil_r. split; [reflexivity | cbn; lia]. }
  assert (Hone : forall (l : list (jsstring * jsstring)) x,
            exists log, l ++ [x] = l ++ log /\ (length log <= 1)%nat).
  { intros l x. exists [x]. split; [reflexivity | cbn; lia]. }
  destruct i as [v | now o | | v | t | o action]; cbn [dispatch];
    try (split; [reflexivity | apply Hnil]).
  - unfold Persisted.run, Persisted.handleSubmit, Persisted.bind,
      Persisted.read.
    destruct (Persisted.taskSchema (Persisted.values (Persisted.ui w)));
      [split; [reflexivity | apply Hnil] |].
    unfold Persisted.editExistingTask, Persisted.bind, Persisted.read.
    cbn [Persisted.setErrors Persisted.update Persisted.ui Persisted.editTask
           fst snd].
    destruct (Persisted.editTask (Persisted.ui w)) as [e |];
      (destruct o; (split; [reflexivity | first [apply Hnil | apply Hone]])).
  - unfold Persisted.run, Persisted.handleOptionsAction, Persisted.bind,
      Persisted.read.
    destruct (Persisted.selectedTask (Persisted.ui w)) as [sel |];
      [| split; [reflexivity | apply Hnil]].
    destruct (strict_eq action (lit "complete")
              || strict_eq action (lit "incomplete"));
      [destruct o; (split; [reflexivity | first [apply Hnil | apply Hone]]) |].
    destruct (strict_eq action (lit "edit"));
      [split; [reflexivity | apply Hnil] |].
    destruct (strict_eq action (lit "delete"));
      [destruct o; (split; [reflexivity | first [apply Hnil | apply Hone]]) |].
    split; [reflexivity | apply Hnil].
Qed.

(** ** Deleting, and what keeps the ids *)

Lemma filter_filter_same (f : Task -> bool) (l : list Task) :
  List.filter f (List.filter f l) = List.filter f l.
Proof.
  induction l as [| u l IH]; [reflexivity |].
  cbn [List.filter]. destruct (f u) eqn:E; [| exact IH].
  cbn [List.filter]. rewrite E, IH. reflexivity.
Qed.

Lemma filter_other_ids (x : jsstring) (l : list Task) :
  Forall (fun u => id u <> x)
    (List.filter (fun u => negb (strict_eq (id u) x)) l).
Proof.
  induction l as [| u l IH]; [constructor |].
  cbn [List.filter]. destruct (strict_eq (id u) x) eqn:E; cbn [negb];
    [exact IH |].
  constructor; [by apply strict_eq_false | exact IH].
Qed.

Lemma filter_length_le (f : Task -> bool) (l : list Task) :
  (length (List.filter f l) <= length l)%nat.
Proof.
  induction l as [| u l IH]; [reflexivity |].
  cbn [List.filter]. destruct (f u); cbn [length]; lia.
Qed.

(** X6. [deleteTask(t)] with a fulfilled save removes every task whose id
    is that of [t] and keeps the others in their order; the store then
    holds the text of the shorter list; deleting the same task again
    changes nothing.  The in-memory [deleteTask] does the same to its
    list. *)
Theorem deleteTask_removes_and_is_idempotent
    (t : Task) (w : Persisted.World) (s : InMemory.State) :
  let keep := fun u => negb (strict_eq (id u) (id t)) in
  let w1 := Persisted.run (Persisted.deleteTask Persisted.Settles t) w in
  let w2 := Persisted.run (Persisted.deleteTask Persisted.Settles t) w1 in
  let s1 := InMemory.deleteTask (id t) s in
  let s2 := InMemory.deleteTask (id t) s1 in
  (Forall (fun u => id u <> id t) (Persisted.tasks (Persisted.ui w1))
   /\ Persisted.tasks (Persisted.ui w1)
      = List.filter keep (Persisted.tasks (Persisted.ui w))
   /\ (length (Persisted.tasks (Persisted.ui w1))
       <= length (Persisted.tasks (Persisted.ui w)))%nat
   /\ Persisted.storage w1 !! lit "tasks"
      = Some (JSON.stringify (Persisted.tasks (Persisted.ui w1)))
   /\ Persisted.tasks (Persisted.ui w2) = Persisted.tasks (Persisted.ui w1)
   /\ Persisted.storage w2 = Persisted.storage w1)
  /\ (Forall (fun u => id u <> id t) (InMemory.tasks s1)
      /\ InMemory.tasks s1 = List.filter keep (InMemory.tasks s)
      /\ (length (InMemory.tasks s1) <= length (InMemory.tasks s))%nat
      /\ s2 = s1).
Proof.
  cbv zeta. split.
  - split; [apply filter_other_ids |]. split; [reflexivity |].
    split; [apply filter_length_le |].
    split; [apply lookup_insert_eq |].
    split; [apply filter_filter_same |].
    change (Persisted.storage
              (Persisted.run (Persisted.deleteTask Persisted.Settles t)
                 (Persisted.run (Persisted.deleteTask Persisted.Settles t) w)))
      with (<[lit "tasks" :=
                JSON.stringify
                  (List.filter (fun u => negb (strict_eq (id u) (id t)))
                     (List.filter (fun u => negb (strict_eq (id u) (id t)))
                        (Persisted.tasks (Persisted.ui w))))]>
              (Persisted.storage
                 (Persisted.run (Persisted.deleteTask Persisted.Settles t) w))).
    rewrite filter_filter_same.
    change (Persisted.storage
              (Persisted.run (Persisted.deleteTask Persisted.Settles t) w))
      with (<[lit "tasks" :=
                JSON.stringify
                  (List.filter (fun u => negb (strict_eq (id u) (id t)))
                     (Persisted.tasks (Persisted.ui w)))]>
              (Persisted.storage w)).
    apply insert_insert_eq.
  - split; [apply filter_other_ids |]. split; [reflexivity |].
    split; [apply filter_length_le |].
    unfold InMemory.deleteTask, InMemory.setTasks.
    cbn [InMemory.tasks InMemory.newTitle InMemory.newDescription
           InMemory.editTask InMemory.filter InMemory.selectedTask].
    rewrite filter_filter_same. reflexivity.
Qed.

Lemma map_id_replace (c : Task -> bool) (g : Task -> Task) (l : list Task) :
  (forall u, c u = true -> id (g u) = id u) ->
  List.map id (List.map (fun u => if c u then g u else u) l) = List.map id l.
Proof.
  intros Hg. induction l as [| u l IH]; [reflexivity |].
  cbn [List.map]. rewrite IH. f_equal.
  destruct (c u) eqn:E; [by apply Hg | reflexivity].
Qed.

Lemma NoDup_map_id_filter (f : Task -> bool) (l : list Task) :
  NoDup (List.map id l) -> NoDup (List.map id (List.filter f l)).
Proof.
  induction l as [| u l IH]; intros H; [constructor |].
  cbn [List.map] in H. apply NoDup_cons in H as [Hu Hl].
  cbn [List.filter]. destruct (f u); [| by apply IH].
  cbn [List.map]. apply NoDup_cons. split; [| by apply IH].
  intros Hin. apply Hu. apply list_elem_of_In.
  apply list_elem_of_In, in_map_iff in Hin as (v & Hv & Hin).
  apply filter_In in Hin as [Hin _]. apply in_map_iff. by exists v.
Qed.

Lemma map_id_filter_other (x : jsstring) (l : list Task) :
  List.map id (List.filter (fun u => negb (strict_eq (id u) x)) l)
  = List.filter (fun i => negb (strict_eq i x)) (List.map id l).
Proof.
  induction l as [| u l IH]; [reflexivity |].
  cbn [List.map List.filter].
  destruct (strict_eq (id u) x); cbn [negb List.map]; by rewrite IH.
Qed.

(** X7. Only adding creates an id.  Toggling and committing an edit leave
    the sequence of ids exactly as it was, in both components and whether
    the save is fulfilled or rejected.  Deleting only removes ids: the ids
    after it are the ids before it without the id of the deleted task, in
    the same order (and all of them when the save is rejected).  So if
    the ids of the list are pairwise distinct before one of these
    operations, they are pairwise distinct after it. *)
Theorem edit_toggle_delete_keep_ids
    (o : Persisted.io) (data : TaskFormData.t) (t : Task)
    (w : Persisted.World) (s : InMemory.State) :
  let ids w' := List.map id (Persisted.tasks (Persisted.ui w')) in
  let ids' s' := List.map id (InMemory.tasks s') in
  let other := fun x : jsstring => negb (strict_eq x (id t)) in
  (ids (Persisted.run (Persisted.toggleCompleteTask o t) w) = ids w
   /\ ids (Persisted.run (Persisted.editExistingTask o data) w) = ids w
   /\ ids (Persisted.run (Persisted.deleteTask o t) w)
      = match o with
        | Persisted.Settles => List.filter other (ids w)
        | Persisted.Rejects _ => ids w
        end)
  /\ (ids' (InMemory.toggleCompleteTask (id t) s) = ids' s
      /\ ids' (InMemory.editExistingTask t s) = ids' s
      /\ ids' (InMemory.deleteTask (id t) s) = List.filter other (ids' s))
  /\ (NoDup (ids w) ->
      NoDup (ids (Persisted.run (Persisted.toggleCompleteTask o t) w))
      /\ NoDup (ids (Persisted.run (Persisted.editExistingTask o data) w))
      /\ NoDup (ids (Persisted.run (Persisted.deleteTask o t) w)))
  /\ (NoDup (ids' s) ->
      NoDup (ids' (InMemory.toggleCompleteTask (id t) s))
      /\ NoDup (ids' (InMemory.editExistingTask t s))
      /\ NoDup (ids' (InMemory.deleteTask (id t) s))).
Proof.
  cbv zeta.
  assert (Ht : List.map id
                 (Persisted.tasks
                    (Persisted.ui
                       (Persisted.run (Persisted.toggleCompleteTask o t) w)))
               = List.map id (Persisted.tasks (Persisted.ui w))).
  { destruct o; [| reflexivity]. by apply map_id_replace. }
  assert (He : List.map id
                 (Persisted.tasks
                    (Persisted.ui
                       (Persisted.run (Persisted.editExistingTask o data) w)))
               = List.map id (Persisted.tasks (Persisted.ui w))).
  { unfold Persisted.run, Persisted.editExistingTask, Persisted.bind,
      Persisted.read.
    destruct (Persisted.editTask (Persisted.ui w)) as [e |]; [| reflexivity].
    destruct o; [| reflexivity]. by apply map_id_replace. }
  assert (Ht' : List.map id (InMemory.tasks (InMemory.toggleCompleteTask (id t) s))
                = List.map id (InMemory.tasks s))
    by (by apply map_id_replace).
  assert (He' : List.map id (InMemory.tasks (InMemory.editExistingTask t s))
                = List.map id (InMemory.tasks s)).
  { apply map_id_replace. intros u Hu. apply strict_eq_true in Hu.
    by symmetry. }
  split; [split; [exact Ht | split; [exact He |]] |].
  { destruct o; [apply map_id_filter_other | reflexivity]. }
  split; [split; [exact Ht' | split; [exact He' | apply map_id_filter_other]] |].
  split.
  - intros Hn. rewrite Ht, He. split; [exact Hn | split; [exact Hn |]].
    destruct o; [by apply NoDup_map_id_filter | exact Hn].
  - intros Hn. rewrite Ht', He'. split; [exact Hn | split; [exact Hn |]].
    by apply NoDup_map_id_filter.
Qed.

(** X7 on a sample: deleting [buy_milk] from a list of two tasks with
    different ids. *)
Lemma edit_toggle_delete_keep_ids_witness :
  List.map id
    (Persisted.tasks
       (Persisted.ui
          (Persisted.run (Persisted.deleteTask Persisted.Settles buy_milk)
             (world_showing [buy_milk; walk_dog] None))))
  = [id walk_dog]
  /\ NoDup
       (List.map id
          (Persisted.tasks
             (Persisted.ui
                (Persisted.run (Persisted.deleteTask Persisted.Settles buy_milk)
                   (world_showing [buy_milk; walk_dog] None))))).
Proof.
  destruct (edit_toggle_delete_keep_ids Persisted.Settles TaskFormData.empty
              buy_milk (world_showing [buy_milk; walk_dog] None)
              (state_showing [buy_milk; walk_dog] None))
    as ((_ & _ & Hd) & _ & Hn & _).
  split.
  - rewrite Hd. vm_compute. reflexivity.
  - apply Hn. vm_compute.
    repeat constructor; rewrite ?list_elem_of_In; cbn; intuition discriminate.
Defined.

(** ** The filter buttons *)

Lemma filter_passes_other (flt : jsstring) (l : list Task) :
  flt <> lit "complete" -> flt <> lit "incomplete" ->
  List.filter (passes flt) l = l.
Proof.
  intros Hc Hi. induction l as [| u l IH]; [reflexivity |].
  cbn [List.filter]. unfold passes at 1.
  rewrite (proj2 (strict_eq_false _ _) Hc), (proj2 (strict_eq_false _ _) Hi).
  by rewrite IH.
Qed.

(** X8. The filter buttons of the in-memory component do not filter.
    They pass their labels [Todas], [Completas] and [Incompletas] to
    [setFilter]; [filteredTasks] only knows [complete] and [incomplete],
    so after any of the three buttons every task is shown, and no button
    brings back the initial value [all].  The buttons of the persisted
    component pass [all], [complete] and [incomplete], and the last two do
    select by the flag. *)
Theorem in_memory_filter_buttons_show_everything
    (s : InMemory.State) (w : Persisted.World) :
  Forall
    (fun label =>
       InMemory.filteredTasks (InMemory.setFilter label s) = InMemory.tasks s
       /\ label <> InMemory.filter InMemory.initial)
    in_memory_filter_buttons
  /\ List.map
       (fun label =>
          Persisted.filteredTasks
            (Persisted.ui (Persisted.run (Persisted.setFilter label) w)))
       persisted_filter_buttons
     = [Persisted.tasks (Persisted.ui w);
        List.filter completed (Persisted.tasks (Persisted.ui w));
        List.filter (fun t => negb (completed t))
          (Persisted.tasks (Persisted.ui w))].
Proof.
  split.
  - repeat constructor;
      try (apply (filter_passes_other _ (InMemory.tasks s)); discriminate);
      discriminate.
  - cbn [List.map persisted_filter_buttons]. f_equal.
    apply (filter_passes_other (lit "all")); discriminate.
Qed.

(** ** Submitting the form *)

Lemma taskSchema_nonempty (data : TaskFormData.t) :
  TaskFormData.title data <> [] -> Persisted.taskSchema data = None.
Proof.
  intros H. unfold Persisted.taskSchema.
  destruct (TaskFormData.title data) as [| c r]; [congruence |].
  destruct (N.ltb_spec (N.of_nat (length (c :: r))) 1) as [Hlt |];
    [cbn [length] in Hlt; lia | reflexivity].
Qed.

Lemma trimStart_blank (s : jsstring) :
  trimStart s = [] <-> forallb is_white_space s = true.
Proof.
  induction s as [| c r IH]; [done |].
  cbn [trimStart forallb]. destruct (is_white_space c); cbn [andb];
    [exact IH | split; discriminate].
Qed.

Lemma forallb_rev (f : N -> bool) (s : jsstring) :
  forallb f (rev s) = forallb f s.
Proof.
  induction s as [| c r IH]; [reflexivity |].
  cbn [rev forallb]. rewrite forallb_app, IH. cbn [forallb].
  rewrite andb_true_r. apply andb_comm.
Qed.

Lemma forallb_trimStart (s : jsstring) :
  forallb is_white_space (trimStart s) = forallb is_white_space s.
Proof.
  induction s as [| c r IH]; [reflexivity |].
  cbn [trimStart]. destruct (is_white_space c) eqn:E; [| reflexivity].
  cbn [forallb]. by rewrite E, IH.
Qed.

(** [trim] leaves nothing exactly when every code unit is white space. *)
Lemma trim_blank_iff (s : jsstring) :
  trim s = [] <-> forallb is_white_space s = true.
Proof.
  split; [| apply trim_blank].
  unfold trim, trimEnd. intros H.
  apply (f_equal (@rev N)) in H. rewrite rev_involutive in H. cbn [rev] in H.
  apply trimStart_blank in H. by rewrite forallb_rev, forallb_trimStart in H.
Qed.

(** X9. A successful add.  In the persisted component, with no edit open,
    a title of at least one code unit and a fulfilled save, the submit
    button appends one incomplete task with the title as typed, the typed
    description or the empty one, and the clock reading as id; it keeps
    every earlier task, stores the text of the new list and empties the
    form.  In the in-memory component the same holds for a title with at
    least one code unit that is not white space; the title is kept as
    typed, not trimmed. *)
Theorem submit_appends_one_task
    (now : N) (random : jsstring) (w : Persisted.World) (s : InMemory.State) :
  TaskFormData.title (Persisted.values (Persisted.ui w)) <> [] ->
  Persisted.editTask (Persisted.ui w) = None ->
  forallb is_white_space (InMemory.newTitle s) = false ->
  InMemory.editTask s = None ->
  let w' := Persisted.run (Persisted.handleSubmit now Persisted.Settles) w in
  let s' := InMemory.pressSubmit random s in
  (Persisted.tasks (Persisted.ui w')
   = Persisted.tasks (Persisted.ui w)
     ++ [mkTask (Number_toString now)
           (TaskFormData.title (Persisted.values (Persisted.ui w)))
           (Some (or_empty
                    (TaskFormData.description (Persisted.values (Persisted.ui w)))))
           false]
   /\ Persisted.storage w' !! lit "tasks"
      = Some (JSON.stringify (Persisted.tasks (Persisted.ui w')))
   /\ Persisted.values (Persisted.ui w') = TaskFormData.empty
   /\ Persisted.errors_title (Persisted.ui w') = None
   /\ Persisted.selectedTask (Persisted.ui w')
      = Persisted.selectedTask (Persisted.ui w)
   /\ Persisted.filter (Persisted.ui w') = Persisted.filter (Persisted.ui w))
  /\ (InMemory.tasks s'
      = InMemory.tasks s
        ++ [mkTask random (InMemory.newTitle s)
              (Some (InMemory.newDescription s)) false]
      /\ InMemory.newTitle s' = []
      /\ InMemory.newDescription s' = []
      /\ InMemory.selectedTask s' = InMemory.selectedTask s
      /\ InMemory.filter s' = InMemory.filter s).
Proof.
  intros Ht He Hb He'. cbv zeta. split.
  - unfold Persisted.run, Persisted.handleSubmit, Persisted.bind,
      Persisted.read.
    rewrite (taskSchema_nonempty _ Ht).
    cbn [Persisted.setErrors Persisted.update Persisted.ui Persisted.editTask
           fst snd].
    rewrite He. repeat split. apply lookup_insert_eq.
  - assert (Hn : trim (InMemory.newTitle s) <> []).
    { intros E. apply trim_blank_iff in E. congruence. }
    unfold InMemory.pressSubmit. rewrite He'.
    split; [by apply in_memory_addTask_appends |].
    unfold InMemory.addTask. rewrite (proj2 (strict_eq_false _ _) Hn).
    repeat split.
Qed.

Lemma submit_appends_one_task_witness :
  Persisted.tasks
    (Persisted.ui
       (Persisted.run (Persisted.handleSubmit 1700000000001 Persisted.Settles)
          (Persisted.run (typed " Walk dog ") (world_showing [buy_milk] None))))
  = [buy_milk; mkTask (lit "1700000000001") (lit " Walk dog ") (Some []) false]
  /\ InMemory.tasks
       (InMemory.pressSubmit (lit "0.25")
          (InMemory.setNewTitle (lit " Walk dog ")
             (state_showing [buy_milk] None)))
     = [buy_milk; mkTask (lit "0.25") (lit " Walk dog ") (Some []) false].
Proof.
  destruct (submit_appends_one_task 1700000000001 (lit "0.25")
              (Persisted.run (typed " Walk dog ")
                 (world_showing [buy_milk] None))
              (InMemory.setNewTitle (lit " Walk dog ")
                 (state_showing [buy_milk] None)))
    as [(Hp & _) (Hm & _)].
  - vm_compute. discriminate.
  - reflexivity.
  - vm_compute. reflexivity.
  - reflexivity.
  - split; [exact Hp | exact Hm].
Defined.

(** X10. An empty title is refused wherever the form is submitted.  In
    the persisted component, with an empty title in the form, the submit
    button only sets the message of the title field: whether an edit is
    open or not, and however the storage would answer, the list, the edit
    target, the form, the store and the console stay as they are. *)
Theorem empty_title_is_refused
    (now : N) (o : Persisted.io) (w : Persisted.World) :
  TaskFormData.title (Persisted.values (Persisted.ui w)) = [] ->
  Persisted.handleSubmit now o w
  = Persisted.setErrors (Some Persisted.title_required) w
  /\ let w' := Persisted.run (Persisted.handleSubmit now o) w in
     Persisted.tasks (Persisted.ui w') = Persisted.tasks (Persisted.ui w)
     /\ Persisted.editTask (Persisted.ui w') = Persisted.editTask (Persisted.ui w)
     /\ Persisted.values (Persisted.ui w') = Persisted.values (Persisted.ui w)
     /\ Persisted.storage w' = Persisted.storage w
     /\ Persisted.console w' = Persisted.console w.
Proof.
  intros H.
  assert (E : Persisted.handleSubmit now o w
              = Persisted.setErrors (Some Persisted.title_required) w).
  { unfold Persisted.handleSubmit, Persisted.bind, Persisted.read,
      Persisted.taskSchema.
    rewrite H. reflexivity. }
  split; [exact E |]. cbv zeta. unfold Persisted.run. rewrite E.
  repeat split.
Qed.

Lemma empty_title_is_refused_witness :
  Persisted.tasks
    (Persisted.ui
       (Persisted.run (Persisted.handleSubmit 1700000000001 Persisted.Settles)
          (world_showing [walk_dog] (Some walk_dog))))
  = [walk_dog].
Proof.
  destruct (empty_title_is_refused 1700000000001 Persisted.Settles
              (world_showing [walk_dog] (Some walk_dog)))
    as (_ & Ht & _).
  - reflexivity.
  - exact Ht.
Defined.

(** ** Beginning an edit from the options menu *)

Lemma or_empty_Some (d : jsstring) : or_empty (Some d) = d.
Proof. by destruct d. Qed.

Lemma or_empty_idem (x : option jsstring) :
  or_empty (Some (or_empty x)) = or_empty x.
Proof. apply or_empty_Some. Qed.

Lemma map_replace_only (t : Task) (g : Task -> Task) (l : list Task) :
  only_with_its_id t l -> g t = t ->
  List.map (fun u => if strict_eq (id u) (id t) then g u else u) l = l.
Proof.
  intros Ho Hg. induction Ho as [| u l Hu Hl IH]; [reflexivity |].
  cbn [List.map]. rewrite IH. f_equal.
  destruct (strict_eq (id u) (id t)) eqn:E; [| reflexivity].
  apply strict_eq_true in E. rewrite (Hu E). exact Hg.
Qed.

(** X11. Opening an edit and saving it untouched changes nothing.  When
    [t] is the only task with its id and has a description, choosing
    [edit] in its options menu and pressing the submit button leaves the
    list as it was, in both components, whether the save is fulfilled or
    rejected: the form was filled with the title and description of [t],
    and the replacement built from them is [t] again. *)
Theorem edit_saved_untouched_is_identity
    (t : Task) (d : jsstring) (now : N) (random : jsstring)
    (o1 o2 : Persisted.io) (w : Persisted.World) (s : InMemory.State) :
  description t = Some d ->
  only_with_its_id t (Persisted.tasks (Persisted.ui w)) ->
  only_with_its_id t (InMemory.tasks s) ->
  Persisted.tasks
    (Persisted.ui
       (dispatch_all
          [OpenOptions t; ChooseAction o1 (lit "edit"); PressSubmit now o2] w))
  = Persisted.tasks (Persisted.ui w)
  /\ InMemory.tasks (InMemory.pressSubmit random (in_memory_choose t "edit" s))
     = InMemory.tasks s.
Proof.
  intros Hd Hw Hs. split.
  - cbn [dispatch_all dispatch].
    set (w2 := Persisted.run (Persisted.handleOptionsAction o1 (lit "edit"))
                 (Persisted.run (Persisted.openOptions t) w)).
    assert (Hv : Persisted.values (Persisted.ui w2)
                 = TaskFormData.mk (title t) (Some (or_empty (description t))))
      by reflexivity.
    assert (He : Persisted.editTask (Persisted.ui w2) = Some t) by reflexivity.
    assert (Ht : Persisted.tasks (Persisted.ui w2) = Persisted.tasks (Persisted.ui w))
      by reflexivity.
    clearbody w2.
    unfold Persisted.run, Persisted.handleSubmit, Persisted.bind,
      Persisted.read.
    destruct (Persisted.taskSchema (Persisted.values (Persisted.ui w2)));
      [exact Ht |].
    unfold Persisted.editExistingTask, Persisted.bind, Persisted.read.
    cbn [Persisted.setErrors Persisted.update Persisted.ui Persisted.editTask
           Persisted.tasks Persisted.values fst snd].
    rewrite He, Hv. cbn [TaskFormData.title TaskFormData.description].
    destruct o2; [| exact Ht].
    cbn [Persisted.tasks Persisted.ui Persisted.with_tasks fst snd
           Persisted.saveAllTasks].
    rewrite Ht. apply (map_replace_only t); [exact Hw |].
    rewrite or_empty_idem, Hd, or_empty_Some.
    destruct t as [i ti de c]. cbn in Hd. subst de. reflexivity.
  - unfold in_memory_choose.
    change (InMemory.tasks
              (InMemory.pressSubmit random
                 (InMemory.handleOptionsAction (lit "edit")
                    (InMemory.openOptions t s))))
      with (List.map
              (fun u => if strict_eq (id u) (id t)
                        then with_text t (title t) (or_empty (description t))
                        else u) (InMemory.tasks s)).
    apply (map_replace_only t (fun _ => with_text t (title t)
                                           (or_empty (description t))));
      [exact Hs |].
    rewrite Hd, or_empty_Some.
    destruct t as [i ti de c]. cbn in Hd. subst de. reflexivity.
Qed.

Lemma edit_saved_untouched_is_identity_witness :
  Persisted.tasks
    (Persisted.ui
       (dispatch_all
          [OpenOptions walk_dog; ChooseAction Persisted.Settles (lit "edit");
           PressSubmit 1700000000002 Persisted.Settles]
          (world_showing [buy_milk; walk_dog] None)))
  = [buy_milk; walk_dog]
  /\ InMemory.tasks
       (InMemory.pressSubmit (lit "0.25")
          (in_memory_choose walk_dog "edit"
             (state_showing [buy_milk; walk_dog] None)))
     = [buy_milk; walk_dog].
Proof.
  apply (edit_saved_untouched_is_identity walk_dog (lit "evening")
           1700000000002 (lit "0.25") Persisted.Settles Persisted.Settles
           (world_showing [buy_milk; walk_dog] None)
           (state_showing [buy_milk; walk_dog] None)).
  - reflexivity.
  - repeat constructor; vm_compute; intros H; discriminate H || reflexivity.
  - repeat constructor; vm_compute; intros H; discriminate H || reflexivity.
Defined.



(** ** The options menu without a task, or with an unknown action *)

(** X13. The options handler does nothing to the list when there is
    nothing to act on.  With no selected task, or with an action other
    than [complete], [incomplete], [edit] and [delete], it leaves the
    list, the edit target, the store and the console alone and closes the
    menu; the in-memory handler leaves its whole state alone but for the
    closed menu. *)
Theorem options_action_without_target
    (o : Persisted.io) (action : jsstring) (w : Persisted.World)
    (s : InMemory.State) :
  Persisted.selectedTask (Persisted.ui w) = None
  \/ ~ In action [lit "complete"; lit "incomplete"; lit "edit"; lit "delete"] ->
  InMemory.selectedTask s = None
  \/ ~ In action [lit "complete"; lit "incomplete"; lit "edit"; lit "delete"] ->
  let w' := Persisted.run (Persisted.handleOptionsAction o action) w in
  (Persisted.tasks (Persisted.ui w') = Persisted.tasks (Persisted.ui w)
   /\ Persisted.editTask (Persisted.ui w') = Persisted.editTask (Persisted.ui w)
   /\ Persisted.selectedTask (Persisted.ui w') = None
   /\ Persisted.storage w' = Persisted.storage w
   /\ Persisted.console w' = Persisted.console w)
  /\ InMemory.handleOptionsAction action s = InMemory.setSelectedTask None s.
Proof.
  intros Hw Hs. cbv zeta.
  assert (Hunknown :
            ~ In action [lit "complete"; lit "incomplete"; lit "edit"; lit "delete"] ->
            strict_eq action (lit "complete") = false
            /\ strict_eq action (lit "incomplete") = false
            /\ strict_eq action (lit "edit") = false
            /\ strict_eq action (lit "delete") = false).
  { intros Hn. repeat split; apply strict_eq_false; intros E; apply Hn;
      rewrite E; cbn; tauto. }
  split.
  - unfold Persisted.run, Persisted.handleOptionsAction, Persisted.bind,
      Persisted.read.
    destruct Hw as [Hw | Hw].
    + rewrite Hw. repeat split.
    + destruct (Hunknown Hw) as (E1 & E2 & E3 & E4).
      rewrite E1, E2, E3, E4.
      destruct (Persisted.selectedTask (Persisted.ui w)); repeat split.
  - unfold InMemory.handleOptionsAction.
    destruct Hs as [Hs | Hs].
    + rewrite Hs. reflexivity.
    + destruct (Hunknown Hs) as (E1 & E2 & E3 & E4).
      rewrite E1, E2, E3, E4.
      destruct (InMemory.selectedTask s); reflexivity.
Qed.

Lemma options_action_without_target_witness :
  Persisted.tasks
    (Persisted.ui
       (Persisted.run
          (Persisted.handleOptionsAction Persisted.Settles (lit "delete"))
          (world_showing [buy_milk] None)))
  = [buy_milk]
  /\ InMemory.handleOptionsAction (lit "archive")
       (InMemory.openOptions buy_milk (state_showing [buy_milk] None))
     = state_showing [buy_milk] None.
Proof.
  destruct (options_action_without_target Persisted.Settles (lit "delete")
              (world_showing [buy_milk] None) (state_showing [buy_milk] None))
    as [(Hp & _) _].
  - left. reflexivity.
  - left. reflexivity.
  - split; [exact Hp |].
    destruct (options_action_without_target Persisted.Settles (lit "archive")
                (world_showing [buy_milk] None)
                (InMemory.openOptions buy_milk (state_showing [buy_milk] None)))
      as [_ Hm].
    + left. reflexivity.
    + right. vm_compute. intuition discriminate.
    + rewrite Hm. reflexivity.
Defined.

(** ** A load that fails, and what the next save does *)

(** X14. A failed load costs the stored list at the next save.  When the
    read at mount is rejected the component starts with the empty list,
    reports it on the console only, and leaves the store alone; the first
    add with a fulfilled save then replaces the stored record, whatever
    it held, by the text of the one new task. *)
Theorem failed_load_then_add_overwrites
    (w : Persisted.World) (e : jsstring) (now : N) (data : TaskFormData.t) :
  TaskFormData.title data <> [] ->
  exists w1,
    mount (Persisted.Rejects e) (restart w) = Some w1
    /\ Persisted.tasks (Persisted.ui w1) = []
    /\ Persisted.storage w1 = Persisted.storage w
    /\ Persisted.console w1
       = Persisted.console w ++ [(lit "Erro ao carregar tarefas:", e)]
    /\ Persisted.storage
         (dispatch_all [TypeText data; PressSubmit now Persisted.Settles] w1)
       !! lit "tasks"
       = Some (JSON.stringify [created (now, data)]).
Proof.
  intros Ht. eexists. split; [reflexivity |]. repeat split.
  cbn [dispatch_all dispatch].
  unfold Persisted.run at 1, Persisted.handleSubmit, Persisted.bind,
    Persisted.read.
  cbn [Persisted.run Persisted.setValues Persisted.update Persisted.ui
         Persisted.values fst snd].
  rewrite (taskSchema_nonempty _ Ht). apply lookup_insert_eq.
Qed.

Lemma failed_load_then_add_overwrites_witness :
  exists w1,
    mount (Persisted.Rejects quota_exceeded)
      (restart (world_showing [buy_milk; walk_dog] None)) = Some w1
    /\ Persisted.storage
         (dispatch_all
            [TypeText (TaskFormData.mk (lit "Call mum") None);
             PressSubmit 1700000000002 Persisted.Settles] w1)
       !! lit "tasks"
       = Some (JSON.stringify
                 [mkTask (lit "1700000000002") (lit "Call mum") (Some []) false]).
Proof.
  destruct (failed_load_then_add_overwrites
              (world_showing [buy_milk; walk_dog] None) quota_exceeded
              1700000000002 (TaskFormData.mk (lit "Call mum") None))
    as (w1 & Hm & _ & _ & _ & Hs).
  - discriminate.
  - exists w1. split; [exact Hm | exact Hs].
Defined.

(** ** The stored text determines the list *)

(** X15. Two task lists with the same [JSON.stringify] text are the same
    list: what [saveAllTasks] stores tells the lists apart, task by task
    and field by field. *)
Theorem stringify_injective (l1 l2 : list Task) :
  JSON.stringify l1 = JSON.stringify l2 -> l1 = l2.
Proof.
  intros H. apply (f_equal JSON.parse) in H. rewrite !parse_stringify in H.
  assert (E : JSON.of_tasks l1 = JSON.of_tasks l2) by congruence.
  apply (f_equal JSON.to_tasks) in E.
  rewrite !to_tasks_of_tasks in E. congruence.
Qed.

Lemma stringify_injective_witness :
  [buy_milk; walk_dog] = [buy_milk; walk_dog].
Proof.
  apply (stringify_injective [buy_milk; walk_dog] [buy_milk; walk_dog]).
  reflexivity.
Defined.

(** ** Adding a task and deleting it again *)

Lemma filter_keeps_other_ids (x : jsstring) (l : list Task) :
  ~ In x (List.map id l) ->
  List.filter (fun u => negb (strict_eq (id u) x)) l = l.
Proof.
  induction l as [| u l IH]; intros Hn; [reflexivity |].
  cbn [List.map] in Hn. cbn [List.filter].
  rewrite (proj2 (strict_eq_false (id u) x)) by (intros E; apply Hn; by left).
  cbn [negb]. rewrite IH by (intros Hin; apply Hn; by right). reflexivity.
Qed.

Lemma filter_drops_added (x : jsstring) (l : list Task) (t : Task) :
  ~ In x (List.map id l) -> id t = x ->
  List.filter (fun u => negb (strict_eq (id u) x)) (l ++ [t]) = l.
Proof.
  intros Hn Ht. rewrite List.filter_app, (filter_keeps_other_ids x l Hn).
  cbn [List.filter]. rewrite (proj2 (strict_eq_true (id t) x) Ht).
  cbn [negb]. apply app_nil_r.
Qed.

(** X16. Adding a task and deleting it from its options menu gives the
    list back, provided the id it got was not in the list: the list is
    the one from before the add, and in the persisted component the store
    holds its text again.  (With an id that was already there the delete
    would take the older task too, see X6.) *)
Theorem add_then_delete_restores
    (now : N) (random : jsstring) (data : TaskFormData.t)
    (w : Persisted.World) (s : InMemory.State) :
  TaskFormData.title data <> [] ->
  Persisted.editTask (Persisted.ui w) = None ->
  ~ In (Number_toString now) (List.map id (Persisted.tasks (Persisted.ui w))) ->
  forallb is_white_space (InMemory.newTitle s) = false ->
  InMemory.editTask s = None ->
  ~ In random (List.map id (InMemory.tasks s)) ->
  let w' :=
    dispatch_all
      [TypeText data; PressSubmit now Persisted.Settles;
       OpenOptions (created (now, data));
       ChooseAction Persisted.Settles (lit "delete")] w in
  let added :=
    mkTask random (InMemory.newTitle s) (Some (InMemory.newDescription s))
      false in
  (Persisted.tasks (Persisted.ui w') = Persisted.tasks (Persisted.ui w)
   /\ Persisted.storage w' !! lit "tasks"
      = Some (JSON.stringify (Persisted.tasks (Persisted.ui w))))
  /\ InMemory.tasks
       (InMemory.handleOptionsAction (lit "delete")
          (InMemory.openOptions added (InMemory.pressSubmit random s)))
     = InMemory.tasks s.
Proof.
  intros Ht He Hf Hb He' Hf'. cbv zeta. split.
  - cbn [dispatch_all dispatch].
    set (w2 := Persisted.run (Persisted.handleSubmit now Persisted.Settles)
                 (Persisted.run (Persisted.setValues data) w)).
    assert (Hl : Persisted.tasks (Persisted.ui w2)
                 = Persisted.tasks (Persisted.ui w) ++ [created (now, data)]).
    { subst w2.
      unfold Persisted.run at 1, Persisted.handleSubmit, Persisted.bind,
        Persisted.read.
      cbn [Persisted.run Persisted.setValues Persisted.update Persisted.ui
             Persisted.values fst snd].
      rewrite (taskSchema_nonempty _ Ht).
      cbn [Persisted.setErrors Persisted.update Persisted.ui
             Persisted.editTask fst snd].
      rewrite He. reflexivity. }
    clearbody w2.
    assert (Hd : List.filter
                   (fun u => negb (strict_eq (id u) (Number_toString now)))
                   (Persisted.tasks (Persisted.ui w2))
                 = Persisted.tasks (Persisted.ui w)).
    { rewrite Hl. by apply filter_drops_added. }
    split; [exact Hd |].
    change (<[lit "tasks" :=
                JSON.stringify
                  (List.filter
                     (fun u => negb (strict_eq (id u) (Number_toString now)))
                     (Persisted.tasks (Persisted.ui w2)))]>
              (Persisted.storage w2) !! lit "tasks"
            = Some (JSON.stringify (Persisted.tasks (Persisted.ui w)))).
    rewrite Hd. apply lookup_insert_eq.
  - assert (Hn : trim (InMemory.newTitle s) <> []).
    { intros E. apply trim_blank_iff in E. congruence. }
    change (List.filter (fun u => negb (strict_eq (id u) random))
              (InMemory.tasks (InMemory.pressSubmit random s))
            = InMemory.tasks s).
    unfold InMemory.pressSubmit. rewrite He'.
    rewrite in_memory_addTask_appends by exact Hn.
    by apply filter_drops_added.
Qed.

Lemma add_then_delete_restores_witness :
  Persisted.tasks
    (Persisted.ui
       (dispatch_all
          [TypeText (TaskFormData.mk (lit "Call mum") None);
           PressSubmit 1700000000002 Persisted.Settles;
           OpenOptions
             (created (1700000000002, TaskFormData.mk (lit "Call mum") None));
           ChooseAction Persisted.Settles (lit "delete")]
          (world_showing [buy_milk; walk_dog] None)))
  = [buy_milk; walk_dog].
Proof.
  destruct (add_then_delete_restores 1700000000002 (lit "0.25")
              (TaskFormData.mk (lit "Call mum") None)
              (world_showing [buy_milk; walk_dog] None)
              (InMemory.setNewTitle (lit "Call mum")
                 (state_showing [buy_milk; walk_dog] None)))
    as [(Hp & _) _].
  - discriminate.
  - reflexivity.
  - vm_compute. intuition discriminate.
  - vm_compute. reflexivity.
  - reflexivity.
  - vm_compute. intuition discriminate.
  - exact Hp.
Defined.
